(** * Verification of the product batcher (src/batcher.js)

    The batcher groups JSON records into batches whose serialized size stays
    under a configured limit and hands every finished batch to an external
    service.  This development embeds [createBatcher] and the platform
    functions it relies on ([JSON.stringify], [Buffer.byteLength], the
    double-precision product that yields the limit) and proves the properties
    of the design document against that embedding.

    Layout: the JavaScript platform model ([JS]), the closure of
    [createBatcher] ([Batcher]), sample batchers and the vocabulary of the
    properties ([Samples], [Observers]), a reader for serialized records
    ([Decode]), then the facts about them. *)

From Stdlib Require Import ZArith List Bool Lia.
From Stdlib Require Ascii String DecimalPos.
Import String.StringSyntax.
From Stdlib Require Import Floats.SpecFloat.
Import ListNotations.

Open Scope Z_scope.

(* ====================================================================== *)
(** ** The JavaScript platform *)
(* ====================================================================== *)

Module JS.

(** A JavaScript string is a sequence of UTF-16 code units. *)
Definition jsstring := list Z.

(** ASCII literal as a JavaScript string. *)
Definition lit (s : String.string) : jsstring :=
  map (fun a => Z.of_N (Ascii.N_of_ascii a)) (String.list_ascii_of_string s).
Arguments lit s%_string_scope.

Definition is_lead (c : Z) : bool := (55296 <=? c) && (c <=? 56319).
Definition is_trail (c : Z) : bool := (56320 <=? c) && (c <=? 57343).

Definition hex_digit (d : Z) : Z := if d <? 10 then 48 + d else 87 + d.

(** [UnicodeEscape]: a backslash, [u] and four lower-case hex digits. *)
Definition UnicodeEscape (c : Z) : jsstring :=
  [92; 117; hex_digit ((c / 4096) mod 16); hex_digit ((c / 256) mod 16);
   hex_digit ((c / 16) mod 16); hex_digit (c mod 16)].

(** One code point that is not a surrogate, as [QuoteJSONString] writes it. *)
Definition quote_unit (c : Z) : jsstring :=
  if c =? 8 then lit "\b"
  else if c =? 9 then lit "\t"
  else if c =? 10 then lit "\n"
  else if c =? 12 then lit "\f"
  else if c =? 13 then lit "\r"
  else if c =? 34 then [92; 34]
  else if c =? 92 then [92; 92]
  else if c <? 32 then UnicodeEscape c
  else [c].

(** The body of [QuoteJSONString]: the string is read code point by code
    point, a surrogate pair is copied, a lone surrogate is escaped. *)
Fixpoint quote_units (s : jsstring) : jsstring :=
  match s with
  | [] => []
  | c :: rest =>
      if is_lead c then
        match rest with
        | d :: rest' =>
            if is_trail d then c :: d :: quote_units rest'
            else UnicodeEscape c ++ quote_units rest
        | [] => UnicodeEscape c
        end
      else if is_trail c then UnicodeEscape c ++ quote_units rest
      else quote_unit c ++ quote_units rest
  end.

Definition QuoteJSONString (s : jsstring) : jsstring :=
  34 :: quote_units s ++ [34].

(** Decimal digits of a non-negative integer. *)
Fixpoint uint_units (d : Decimal.uint) : jsstring :=
  match d with
  | Decimal.Nil => []
  | Decimal.D0 r => 48 :: uint_units r
  | Decimal.D1 r => 49 :: uint_units r
  | Decimal.D2 r => 50 :: uint_units r
  | Decimal.D3 r => 51 :: uint_units r
  | Decimal.D4 r => 52 :: uint_units r
  | Decimal.D5 r => 53 :: uint_units r
  | Decimal.D6 r => 54 :: uint_units r
  | Decimal.D7 r => 55 :: uint_units r
  | Decimal.D8 r => 56 :: uint_units r
  | Decimal.D9 r => 57 :: uint_units r
  end.

(** [Number::toString] on an integer that a binary64 number holds exactly
    (magnitude below 2^53): JavaScript prints it in plain decimal notation.
    Beyond that range JavaScript rounds the integer, and from 10^21 on it
    prints an exponent; the function is meant for the former range only
    (see [Decode.wf_json]). *)
Definition Number_toString (n : Z) : jsstring :=
  match n with
  | Z0 => [48]
  | Zpos p => uint_units (Pos.to_uint p)
  | Zneg p => 45 :: uint_units (Pos.to_uint p)
  end.

(** The records the batcher is fed: plain JSON data.  A number is an
    integer of magnitude below 2^53 (numbers with a fraction are not
    covered); an object lists its own enumerable properties in enumeration
    order. *)
#[local] Set Warnings "-register-all".
Inductive json : Type :=
| JNull
| JBool (b : bool)
| JNumber (n : Z)
| JString (s : jsstring)
| JArray (items : list json)
| JObject (props : list (jsstring * json)).

(** [JSON.stringify(value)] without replacer and without indentation:
    [SerializeJSONArray] writes the elements between brackets, separated by
    commas, [SerializeJSONObject] writes [key:value] members between braces. *)
Fixpoint JSON_stringify (v : json) : jsstring :=
  match v with
  | JNull => lit "null"
  | JBool true => lit "true"
  | JBool false => lit "false"
  | JNumber n => Number_toString n
  | JString s => QuoteJSONString s
  | JArray items =>
      91 :: (fix elements (l : list json) : jsstring :=
               match l with
               | [] => []
               | x :: rest =>
                   JSON_stringify x ++
                   match rest with
                   | [] => []
                   | _ :: _ => 44 :: elements rest
                   end
               end) items ++ [93]
  | JObject props =>
      123 :: (fix members (l : list (jsstring * json)) : jsstring :=
                match l with
                | [] => []
                | (k, x) :: rest =>
                    QuoteJSONString k ++ 58 :: JSON_stringify x ++
                    match rest with
                    | [] => []
                    | _ :: _ => 44 :: members rest
                    end
                end) props ++ [125]
  end.

(** [Buffer.byteLength(str, "utf8")]: one byte below U+0080, two below
    U+0800, three for the rest of the basic plane, four for a surrogate
    pair; a lone surrogate is encoded as U+FFFD (three bytes). *)
Fixpoint Buffer_byteLength (s : jsstring) : Z :=
  match s with
  | [] => 0
  | c :: rest =>
      if is_lead c then
        match rest with
        | d :: rest' =>
            if is_trail d then 4 + Buffer_byteLength rest'
            else 3 + Buffer_byteLength rest
        | [] => 3
        end
      else if c <? 128 then 1 + Buffer_byteLength rest
      else if c <? 2048 then 2 + Buffer_byteLength rest
      else 3 + Buffer_byteLength rest
  end.

(** The text between the brackets of a serialized array. *)
Fixpoint elements (l : list json) : jsstring :=
  match l with
  | [] => []
  | x :: rest =>
      JSON_stringify x ++
      match rest with
      | [] => []
      | _ :: _ => 44 :: elements rest
      end
  end.

(** Byte length of one serialized record. *)
Definition record_bytes (v : json) : Z := Buffer_byteLength (JSON_stringify v).

(** Bytes between the brackets: the records and one comma between
    neighbours. *)
Fixpoint elements_bytes (l : list json) : Z :=
  match l with
  | [] => 0
  | x :: rest =>
      record_bytes x +
      match rest with
      | [] => 0
      | _ :: _ => 1 + elements_bytes rest
      end
  end.

(** A JavaScript number that need not be an integer: an IEEE 754 binary64
    value. *)
Definition number := spec_float.

Definition prec : Z := 53.
Definition emax : Z := 1024.

(** [x * y] on numbers. *)
Definition mul (x y : number) : number := SFmul prec emax x y.

(** The number with the value of an integer (exact below 2^53). *)
Definition of_Z (n : Z) : number := binary_normalize prec emax n 0 false.

(** The byte counts and counters of the batcher are integers far below
    2^53, which binary64 holds exactly; they are kept as [Z].  [gt n x] is
    the JavaScript comparison [n > x] of such an integer with an arbitrary
    number: false on NaN, otherwise the comparison of the two values, where
    a finite [x] is [m * 2^e]. *)
Definition gt (n : Z) (x : number) : bool :=
  match x with
  | S754_nan => false
  | S754_infinity s => s
  | S754_zero _ => 0 <? n
  | S754_finite s m e =>
      let sm := if s then Z.neg m else Z.pos m in
      if 0 <=? e then sm * 2 ^ e <? n else sm <? n * 2 ^ (- e)
  end.

Definition is_nan (x : number) : bool :=
  match x with
  | S754_nan => true
  | _ => false
  end.

(** [n <= x], in the same way. *)
Definition le (n : Z) (x : number) : bool :=
  match x with
  | S754_nan => false
  | S754_infinity s => negb s
  | S754_zero _ => n <=? 0
  | S754_finite s m e =>
      let sm := if s then Z.neg m else Z.pos m in
      if 0 <=? e then n <=? sm * 2 ^ e else n * 2 ^ (- e) <=? sm
  end.

End JS.

(* ====================================================================== *)
(** ** The closure of [createBatcher] *)
(* ====================================================================== *)

Module Batcher.
Import JS.

(** [const ONE_MEGA_BYTE = 1_048_576.0], that is 2^52 * 2^-32. *)
Definition ONE_MEGA_BYTE : number := S754_finite false 4503599627370496 (-32).

(** The literal [0.95]: the binary64 number 0x1.e666666666666p-1. *)
Definition lit_0_95 : number := S754_finite false 8556839292003942 (-53).

(** A thrown value. *)
Record JSError : Type := { message : jsstring }.

(** The external service.  [call earlier payload] is [None] when
    [externalService.call(payload)] returns and [Some e] when it throws [e];
    [earlier] lists the payloads of the invocations before this one, so a
    service may answer differently from one invocation to the next. *)
Record ExternalService : Type :=
  { call : list jsstring -> jsstring -> option JSError }.

(** What [console.log] prints.  A line built from numbers carries the
    integer operands of the expression that the code formats with [toFixed],
    [toLocaleString] or [Math.round]; fixed text is kept as text.  The text
    of the line of [sendBatch] is [sending_text] below: it shows the size in
    megabytes with four decimals, not the byte count the line carries. *)
Inductive LogLine : Type :=
| LogText (text : jsstring)
| LogSending (batchNo products batchSize : Z)
| LogProcessing (totalProducts : Z)
| LogProgress (processedCount totalProducts : Z)
| LogCompleted (totalProducts : Z)
| LogTotalProducts (products : Z)
| LogTotalBatches (batches : Z)
| LogTotalData (bytes : Z)
| LogAverageBatchSize (bytes batches : Z)
| LogAverageProducts (products batches : Z)
| LogOverallUtilization (bytes batches : Z)
| LogFullBatches (count bytes : Z)
| LogPartialBatches (count bytes : Z).

(** Four decimal digits, with leading zeros. *)
Definition four_digits (n : Z) : jsstring :=
  [48 + n / 1000 mod 10; 48 + n / 100 mod 10; 48 + n / 10 mod 10; 48 + n mod 10].

(** [(batchSize / ONE_MEGA_BYTE).toFixed(4)] on a byte count.  The division
    by 2^20 is exact in binary64; [toFixed(4)] takes the integer [n] for
    which [n / 10^4] is nearest to the quotient, the larger one of two, and
    writes it with the point before its last four digits. *)
Definition toFixed4_MB (batchSize : Z) : jsstring :=
  let n := (batchSize * 20000 + 1048576) / 2097152 in
  Number_toString (n / 10000) ++ 46 :: four_digits (n mod 10000).

(** The template literal of [sendBatch]:
    [Sending batch N... (K products, S MB)]. *)
Definition sending_text (batchNo products batchSize : Z) : jsstring :=
  lit "Sending batch " ++ Number_toString batchNo ++ lit "... (" ++
  Number_toString products ++ lit " products, " ++
  toFixed4_MB batchSize ++ lit "MB)".

(** The mutable variables of the closure, followed by the two things the
    closure acts on: the payloads the external service has been invoked
    with (oldest first) and the console. *)
Record State : Type := mkState {
  currentBatch : list json;
  currentBatchSize : Z;
  totalProductsProcessed : Z;
  totalBatchesSent : Z;
  totalSizeProcessed : Z;
  totalFullBatchesSize : Z;
  fullBatchCount : Z;
  calls : list jsstring;
  console : list LogLine
}.

(** The variables as [createBatcher] initialises them. *)
Definition initial : State := mkState [] 0 0 0 0 0 0 [] [].

Definition set_currentBatch (v : list json) (st : State) : State :=
  mkState v (currentBatchSize st) (totalProductsProcessed st)
    (totalBatchesSent st) (totalSizeProcessed st) (totalFullBatchesSize st)
    (fullBatchCount st) (calls st) (console st).

Definition set_currentBatchSize (v : Z) (st : State) : State :=
  mkState (currentBatch st) v (totalProductsProcessed st)
    (totalBatchesSent st) (totalSizeProcessed st) (totalFullBatchesSize st)
    (fullBatchCount st) (calls st) (console st).

Definition set_totalProductsProcessed (v : Z) (st : State) : State :=
  mkState (currentBatch st) (currentBatchSize st) v
    (totalBatchesSent st) (totalSizeProcessed st) (totalFullBatchesSize st)
    (fullBatchCount st) (calls st) (console st).

Definition set_totalBatchesSent (v : Z) (st : State) : State :=
  mkState (currentBatch st) (currentBatchSize st) (totalProductsProcessed st)
    v (totalSizeProcessed st) (totalFullBatchesSize st)
    (fullBatchCount st) (calls st) (console st).

Definition set_totalSizeProcessed (v : Z) (st : State) : State :=
  mkState (currentBatch st) (currentBatchSize st) (totalProductsProcessed st)
    (totalBatchesSent st) v (totalFullBatchesSize st)
    (fullBatchCount st) (calls st) (console st).

Definition set_totalFullBatchesSize (v : Z) (st : State) : State :=
  mkState (currentBatch st) (currentBatchSize st) (totalProductsProcessed st)
    (totalBatchesSent st) (totalSizeProcessed st) v
    (fullBatchCount st) (calls st) (console st).

Definition set_fullBatchCount (v : Z) (st : State) : State :=
  mkState (currentBatch st) (currentBatchSize st) (totalProductsProcessed st)
    (totalBatchesSent st) (totalSizeProcessed st) (totalFullBatchesSize st)
    v (calls st) (console st).

Definition set_calls (v : list jsstring) (st : State) : State :=
  mkState (currentBatch st) (currentBatchSize st) (totalProductsProcessed st)
    (totalBatchesSent st) (totalSizeProcessed st) (totalFullBatchesSize st)
    (fullBatchCount st) v (console st).

Definition set_console (v : list LogLine) (st : State) : State :=
  mkState (currentBatch st) (currentBatchSize st) (totalProductsProcessed st)
    (totalBatchesSent st) (totalSizeProcessed st) (totalFullBatchesSize st)
    (fullBatchCount st) (calls st) v.

(** How a function call ends: it returns a value or it throws. *)
Inductive completion (A : Type) : Type :=
| Normal (a : A)
| Throw (e : JSError).
Arguments Normal {A} a.
Arguments Throw {A} e.

(** A JavaScript function of the closure: it runs on the state and ends
    with a completion.  A throw keeps the assignments made before it. *)
Definition M (A : Type) : Type := State -> completion A * State.

Definition ret {A : Type} (a : A) : M A := fun st => (Normal a, st).

Definition bind {A B : Type} (c : M A) (k : A -> M B) : M B :=
  fun st =>
    match c st with
    | (Normal a, st') => k a st'
    | (Throw e, st') => (Throw e, st')
    end.

Notation "x <- c ;; k" := (bind c (fun x => k))
  (at level 61, c at next level, right associativity).
Notation "c ;; k" := (bind c (fun _ => k))
  (at level 61, right associativity).

Definition gets {A : Type} (f : State -> A) : M A := fun st => (Normal (f st), st).
Definition modify (f : State -> State) : M unit := fun st => (Normal tt, f st).

Definition console_log (line : LogLine) : M unit :=
  modify (fun st => set_console (console st ++ [line]) st).

(** [Array.prototype.length]. *)
Definition len {A : Type} (l : list A) : Z := Z.of_nat (length l).

Section Closure.

(** The two parameters of [createBatcher(maxSizeMB, externalService)]. *)
Variable maxSizeMB : number.
Variable externalService : ExternalService.

(** [const maxSizeBytes = maxSizeMB * ONE_MEGA_BYTE]. *)
Definition maxSizeBytes : number := mul maxSizeMB ONE_MEGA_BYTE.

(** [externalService.call(batchJSON)]: the invocation is recorded, then the
    service returns or throws. *)
Definition externalService_call (batchJSON : jsstring) : M unit :=
  fun st =>
    let st' := set_calls (calls st ++ [batchJSON]) st in
    match call externalService (calls st) batchJSON with
    | None => (Normal tt, st')
    | Some e => (Throw e, st')
    end.

Definition calculateBatchSize (products : list json) : Z :=
  if len products =? 0 then 2
  else
    let json := JSON_stringify (JArray products) in
    Buffer_byteLength json.

Definition estimateProductSize (product : json) : M Z :=
  let json := JSON_stringify product in
  let productSize := Buffer_byteLength json in
  batch <- gets currentBatch ;;
  let separator := if len batch >? 0 then 1 else 0 in
  ret (productSize + separator).

Definition sendBatch : M unit :=
  batch <- gets currentBatch ;;
  if len batch =? 0 then ret tt
  else
    let batchJSON := JSON_stringify (JArray batch) in
    let batchSize := Buffer_byteLength batchJSON in
    modify (fun st => set_totalProductsProcessed
                        (totalProductsProcessed st + len batch) st) ;;
    modify (fun st => set_totalBatchesSent (totalBatchesSent st + 1) st) ;;
    modify (fun st => set_totalSizeProcessed
                        (totalSizeProcessed st + batchSize) st) ;;
    (if gt batchSize (mul maxSizeBytes lit_0_95) then
       modify (fun st => set_totalFullBatchesSize
                           (totalFullBatchesSize st + batchSize) st) ;;
       modify (fun st => set_fullBatchCount (fullBatchCount st + 1) st)
     else ret tt) ;;
    sent <- gets totalBatchesSent ;;
    console_log (LogSending sent (len batch) batchSize) ;;
    externalService_call batchJSON ;;
    modify (set_currentBatch []) ;;
    modify (set_currentBatchSize 0).

Definition addProduct (product : json) : M unit :=
  estimatedAddition <- estimateProductSize product ;;
  size <- gets currentBatchSize ;;
  let estimatedNewSize := size + estimatedAddition in
  batch <- gets currentBatch ;;
  if gt estimatedNewSize maxSizeBytes && (len batch >? 0) then
    sendBatch ;;
    modify (set_currentBatch [product]) ;;
    modify (fun st => set_currentBatchSize
                        (calculateBatchSize (currentBatch st)) st)
  else
    modify (fun st => set_currentBatch (currentBatch st ++ [product]) st) ;;
    batch' <- gets currentBatch ;;
    if (len batch' <=? 3) || (len batch' mod 100 =? 0) then
      modify (set_currentBatchSize (calculateBatchSize batch'))
    else
      modify (set_currentBatchSize estimatedNewSize).

(** The [for ... of] loop of [addProducts]. *)
Fixpoint addProducts_loop (totalProducts : Z) (products : list json)
    (processedCount : Z) : M unit :=
  match products with
  | [] => ret tt
  | product :: rest =>
      addProduct product ;;
      let processedCount := processedCount + 1 in
      (if processedCount mod 5000 =? 0
       then console_log (LogProgress processedCount totalProducts)
       else ret tt) ;;
      addProducts_loop totalProducts rest processedCount
  end.

Definition addProducts (products : list json) : M unit :=
  let totalProducts := len products in
  console_log (LogProcessing totalProducts) ;;
  addProducts_loop totalProducts products 0 ;;
  console_log (LogCompleted totalProducts).

Definition rule : jsstring := repeat 61 60%nat.

Definition printSummary : M unit :=
  console_log (LogText (10 :: rule)) ;;
  console_log (LogText (lit "PROCESSING SUMMARY")) ;;
  console_log (LogText rule) ;;
  products <- gets totalProductsProcessed ;;
  console_log (LogTotalProducts products) ;;
  batches <- gets totalBatchesSent ;;
  console_log (LogTotalBatches batches) ;;
  bytes <- gets totalSizeProcessed ;;
  console_log (LogTotalData bytes) ;;
  (if batches >? 0 then
     console_log (LogAverageBatchSize bytes batches) ;;
     console_log (LogAverageProducts products batches) ;;
     console_log (LogOverallUtilization bytes batches) ;;
     full <- gets fullBatchCount ;;
     fullBytes <- gets totalFullBatchesSize ;;
     (if full >? 0 then console_log (LogFullBatches full fullBytes)
      else ret tt) ;;
     let partialBatches := batches - full in
     (if partialBatches >? 0 then
        let partialSize := bytes - fullBytes in
        console_log (LogPartialBatches partialBatches partialSize)
      else ret tt)
   else console_log (LogText (lit "No batches were sent."))) ;;
  console_log (LogText rule).

Definition flush : M unit :=
  sendBatch ;;
  printSummary.

(** The three functions the closure returns, as a caller invokes them. *)
Inductive Call : Type :=
| AddProduct (product : json)
| AddProducts (products : list json)
| Flush.

Definition invoke (c : Call) : M unit :=
  match c with
  | AddProduct product => addProduct product
  | AddProducts products => addProducts products
  | Flush => flush
  end.

(** A caller that lets the first exception escape. *)
Fixpoint script (cs : list Call) : M unit :=
  match cs with
  | [] => ret tt
  | c :: cs' => invoke c ;; script cs'
  end.

(** A caller that catches whatever a call throws and goes on with the next
    call.  Every state a batcher can be in is [session cs initial] for some
    [cs]. *)
Fixpoint session (cs : list Call) (st : State) : State :=
  match cs with
  | [] => st
  | c :: cs' => session cs' (snd (invoke c st))
  end.

(** The records a sequence of calls feeds in, in order. *)
Fixpoint records (cs : list Call) : list json :=
  match cs with
  | [] => []
  | AddProduct product :: cs' => product :: records cs'
  | AddProducts products :: cs' => products ++ records cs'
  | Flush :: cs' => records cs'
  end.

End Closure.

(** *** Vocabulary of the properties *)

(** The payload of a batch: what [sendBatch] hands to the service. *)
Definition payload (batch : list json) : jsstring :=
  JSON_stringify (JArray batch).

(** Exact serialized size of a batch. *)
Definition batch_bytes (batch : list json) : Z :=
  Buffer_byteLength (payload batch).

(** The size the closure should be tracking for its current batch. *)
Definition exact_size (batch : list json) : Z :=
  match batch with
  | [] => 0
  | _ :: _ => batch_bytes batch
  end.

Definition size_tracked (st : State) : Prop :=
  currentBatchSize st = exact_size (currentBatch st).

(** The full batches are among the batches sent. *)
Definition stats_ordered (st : State) : Prop :=
  0 <= fullBatchCount st <= totalBatchesSent st /\
  0 <= totalFullBatchesSize st <= totalSizeProcessed st.

Definition sum_bytes (payloads : list jsstring) : Z :=
  fold_right (fun p acc => Buffer_byteLength p + acc) 0 payloads.

Definition sum_len (batches : list (list json)) : Z :=
  fold_right (fun b acc => len b + acc) 0 batches.

Section Observations.

Variable maxSizeMB : number.

(** The test of [sendBatch] for a full batch, on a payload. *)
Definition is_full (p : jsstring) : bool :=
  gt (Buffer_byteLength p) (mul (maxSizeBytes maxSizeMB) lit_0_95).

(** The state in which [sendBatch] leaves the closure once it has invoked
    the service on a non-empty batch, before the two resetting assignments. *)
Definition counted (st : State) : State :=
  let batch := currentBatch st in
  let p := payload batch in
  let batchSize := Buffer_byteLength p in
  mkState batch (currentBatchSize st)
    (totalProductsProcessed st + len batch)
    (totalBatchesSent st + 1)
    (totalSizeProcessed st + batchSize)
    (if is_full p then totalFullBatchesSize st + batchSize
     else totalFullBatchesSize st)
    (if is_full p then fullBatchCount st + 1 else fullBatchCount st)
    (calls st ++ [p])
    (console st ++ [LogSending (totalBatchesSent st + 1) (len batch) batchSize]).

(** The lines [printSummary] prints in a given state. *)
Definition summary_lines (st : State) : list LogLine :=
  [LogText (10 :: rule); LogText (lit "PROCESSING SUMMARY"); LogText rule;
   LogTotalProducts (totalProductsProcessed st);
   LogTotalBatches (totalBatchesSent st);
   LogTotalData (totalSizeProcessed st)] ++
  (if totalBatchesSent st >? 0 then
     [LogAverageBatchSize (totalSizeProcessed st) (totalBatchesSent st);
      LogAverageProducts (totalProductsProcessed st) (totalBatchesSent st);
      LogOverallUtilization (totalSizeProcessed st) (totalBatchesSent st)] ++
     (if fullBatchCount st >? 0
      then [LogFullBatches (fullBatchCount st) (totalFullBatchesSize st)]
      else []) ++
     (if totalBatchesSent st - fullBatchCount st >? 0
      then [LogPartialBatches (totalBatchesSent st - fullBatchCount st)
              (totalSizeProcessed st - totalFullBatchesSize st)]
      else [])
   else [LogText (lit "No batches were sent.")]) ++
  [LogText rule].

(** A batch as the batcher may hand it over: not empty, and within the
    limit as soon as it holds more than one record. *)
Definition batch_ok (b : list json) : Prop :=
  b <> [] /\
  ((1 < length b)%nat -> gt (batch_bytes b) (maxSizeBytes maxSizeMB) = false).

(** The state of the closure against the batches [bs] handed to the
    service so far. *)
Record Inv (st : State) (bs : list (list json)) : Prop := {
  inv_calls : calls st = map payload bs;
  inv_batches : Forall batch_ok bs;
  inv_size : size_tracked st;
  inv_current : (1 < length (currentBatch st))%nat ->
                gt (batch_bytes (currentBatch st)) (maxSizeBytes maxSizeMB) = false;
  inv_products : totalProductsProcessed st = sum_len bs;
  inv_sent : totalBatchesSent st = len (calls st);
  inv_bytes : totalSizeProcessed st = sum_bytes (calls st);
  inv_full_count : fullBatchCount st = len (filter is_full (calls st));
  inv_full_bytes : totalFullBatchesSize st = sum_bytes (filter is_full (calls st))
}.

End Observations.

End Batcher.

(* ====================================================================== *)
(** ** Sample configurations and records *)
(* ====================================================================== *)

Module Samples.
Import JS Batcher.

(** [createBatcher(5, ...)]: the number 5. *)
Definition five_MB : number := S754_finite false 5629499534213120 (-50).

(** [createBatcher(0.001, ...)]: the binary64 number nearest to 0.001,
    0x1.0624dd2f1a9fcp-10; the limit is 1048.576 bytes. *)
Definition one_KB : number := S754_finite false 4611686018427388 (-62).

(** A service that always returns, like the mock of the tests. *)
Definition reliable : ExternalService := {| call := fun _ _ => None |}.

Definition service_down : JSError := {| message := lit "service down" |}.

(** A service that always throws. *)
Definition failing : ExternalService := {| call := fun _ _ => Some service_down |}.

(** [{ id, title, description }], the shape of the records of the feed. *)
Definition product (id title description : String.string) : json :=
  JObject [(lit "id", JString (lit id));
           (lit "title", JString (lit title));
           (lit "description", JString (lit description))].
Arguments product (id title description)%_string_scope.

Definition product_1 : json := product "1" "Product 1" "Description 1".
Definition product_2 : json := product "2" "Product 2" "Description 2".

(** A string of 1045 letters A: 1047 bytes once serialized, 1049 bytes as
    a batch of its own. *)
Definition long_text : json := JString (repeat 65 1045%nat).

(** A string of 2000 letters A, larger than 1048.576 bytes by itself. *)
Definition oversized_text : json := JString (repeat 65 2000%nat).


(** Scenario A without its final [flush]: two small records. *)
Definition two_products : list Call := [AddProducts [product_1; product_2]].

(** The batcher of scenario A after [addProducts] and [flush]. *)
Definition flushed : State :=
  snd (script five_MB reliable (two_products ++ [Flush]) initial).

(** A batcher over a failing service, holding one record. *)
Definition pending_one : State :=
  snd (addProduct five_MB failing product_1 initial).

(** A batcher over a reliable service, holding two records. *)
Definition pending_two : State :=
  snd (script five_MB reliable two_products initial).

(** [createBatcher(0.01, ...)]: the binary64 number nearest to 0.01,
    0x1.47ae147ae147bp-7; the limit is 10485.76 bytes. *)
Definition ten_KB : number := S754_finite false 5764607523034235 (-59).

(** The [i]-th record of a generated feed, with a description made of
    [n] letters A. *)
Definition numbered (n : nat) (i : Z) : json :=
  JObject [(lit "id", JString (Number_toString i));
           (lit "title", JString (lit "Product " ++ Number_toString i));
           (lit "description", JString (repeat 65 n))].

(** Scenario B: twenty records of more than 100 bytes. *)
Definition twenty_products : list json :=
  map (fun i => numbered 100 (Z.of_nat i)) (seq 0 20).

(** Scenario C: a hundred records with descriptions of 200 bytes. *)
Definition hundred_products : list json :=
  map (fun i => numbered 200 (Z.of_nat i)) (seq 0 100).

(** [createBatcher(1.3050280119243421e-05, ...)]: the binary64 number
    0x1.b5e50d79435e5p-17.  The limit is the number 13.68421052631579, and
    the product of the limit and [0.95] is the number 13, which is above
    95% of the limit. *)
Definition tight_MB : number := S754_finite false 7703525678396901 (-69).

(** A string of 9 letters A: 11 bytes once serialized, 13 bytes as a batch
    of its own. *)
Definition short_text : json := JString (repeat 65 9%nat).

(** Two small records and one larger than 1048.576 bytes. *)
Definition three_records : list Call :=
  [AddProduct product_1; AddProduct product_2; AddProduct oversized_text].

(** One small record, flushed, then the first seven records of scenario B:
    1037 bytes as a batch. *)
Definition mixed_feed : list Call :=
  [AddProduct product_1; Flush; AddProducts (firstn 7 twenty_products)].

(** A batcher with the limit at 1048.576 bytes that has handed over one
    small batch and holds seven records. *)
Definition pending_full : State := session one_KB reliable mixed_feed initial.

End Samples.

(* ====================================================================== *)
(** ** Vocabulary of the further properties *)
(* ====================================================================== *)

Module Observers.
Import JS Batcher.

(** The closure and the service without the console. *)
Definition vars (st : State) : State := set_console [] st.

(** Serialized bytes of the records of a list, brackets and commas left
    out. *)
Definition records_bytes (l : list json) : Z :=
  fold_right (fun r acc => record_bytes r + acc) 0 l.

(** The lines [sendBatch] printed, as (batch number, records, bytes). *)
Fixpoint sendings (lines : list LogLine) : list (Z * Z * Z) :=
  match lines with
  | [] => []
  | LogSending batchNo products batchSize :: rest =>
      (batchNo, products, batchSize) :: sendings rest
  | _ :: rest => sendings rest
  end.

(** What the lines of [sendBatch] should be for batches numbered from
    [k] on. *)
Fixpoint numbered_from (k : Z) (bs : list (list json)) : list (Z * Z * Z) :=
  match bs with
  | [] => []
  | b :: rest => (k, len b, batch_bytes b) :: numbered_from (k + 1) rest
  end.

(** The texts of the lines [sendBatch] printed. *)
Definition printed_sendings (lines : list LogLine) : list jsstring :=
  map (fun '(batchNo, products, batchSize) =>
         sending_text batchNo products batchSize) (sendings lines).

(** The texts [sendBatch] should print for batches numbered from [k] on. *)
Fixpoint announcements (k : Z) (bs : list (list json)) : list jsstring :=
  match bs with
  | [] => []
  | b :: rest =>
      sending_text k (len b) (batch_bytes b) :: announcements (k + 1) rest
  end.

(** A line that [addProducts] prints between its first and its last line:
    a line of [sendBatch] or a progress line. *)
Definition loop_line (line : LogLine) : bool :=
  match line with
  | LogSending _ _ _ => true
  | LogProgress _ _ => true
  | _ => false
  end.

(** [n] is strictly greater than 95% of [x], in exact arithmetic:
    [100 n > 95 x] on the value of [x], where a finite [x] is [m * 2^e]. *)
Definition above_95_percent (n : Z) (x : number) : bool :=
  match x with
  | S754_nan => false
  | S754_infinity s => s
  | S754_zero _ => 0 <? n
  | S754_finite s m e =>
      let sm := if s then Z.neg m else Z.pos m in
      if 0 <=? e then 95 * (sm * 2 ^ e) <? 100 * n
      else 95 * sm <? 100 * n * 2 ^ (- e)
  end.

(** The progress lines [addProducts] printed, as (processed, total). *)
Fixpoint progress (lines : list LogLine) : list (Z * Z) :=
  match lines with
  | [] => []
  | LogProgress processedCount totalProducts :: rest =>
      (processedCount, totalProducts) :: progress rest
  | _ :: rest => progress rest
  end.

(** From [st] to [st'] nothing was taken back: the invocations of the
    service and the console were only extended, each new invocation counted
    as one batch, and no counter went down. *)
Definition grows (st st' : State) : Prop :=
  (exists ext : list jsstring,
     calls st' = calls st ++ ext /\
     totalBatchesSent st' = totalBatchesSent st + len ext /\
     totalSizeProcessed st' = totalSizeProcessed st + sum_bytes ext) /\
  (exists lines : list LogLine, console st' = console st ++ lines) /\
  totalProductsProcessed st <= totalProductsProcessed st' /\
  fullBatchCount st <= fullBatchCount st' /\
  totalFullBatchesSize st <= totalFullBatchesSize st'.

(** A service that throws on its first invocation and returns on every
    later one. *)
Definition flaky : ExternalService :=
  {| call := fun earlier _ =>
               match earlier with
               | [] => Some Samples.service_down
               | _ :: _ => None
               end |}.

(** A batcher over the flaky service, holding two records. *)
Definition pending_flaky : State :=
  snd (script Samples.five_MB flaky Samples.two_products initial).

(** A batcher with the limit at 1048.576 bytes over a failing service,
    holding one record of 1047 bytes. *)
Definition pending_long : State :=
  snd (addProduct Samples.one_KB Samples.failing Samples.long_text initial).

Section Limit.

Variable maxSizeMB : number.

(** A record that, put in a batch of its own, stays within the limit. *)
Definition fits_alone (r : json) : Prop :=
  le (record_bytes r + 2) (maxSizeBytes maxSizeMB) = true.

(** Batch [b] could not take the first record of the batch after it. *)
Definition overflows (b next : list json) : Prop :=
  match next with
  | [] => False
  | r :: _ => gt (batch_bytes (b ++ [r])) (maxSizeBytes maxSizeMB) = true
  end.

(** Every batch but the last could not take the record that follows it. *)
Fixpoint greedy (bs : list (list json)) : Prop :=
  match bs with
  | [] => True
  | b :: rest =>
      match rest with
      | [] => True
      | next :: _ => overflows b next
      end /\ greedy rest
  end.

End Limit.

End Observers.

(* ====================================================================== *)
(** ** Reading serialized records back

    A reader for the texts [JSON.stringify] writes, used to show that a
    payload determines the batch it was written from.  It reads what the
    serializer of this file produces; it is not [JSON.parse]. *)
(* ====================================================================== *)

Module Decode.
Import JS.

(** A UTF-16 code unit. *)
Definition code_unit (c : Z) : Prop := 0 <= c < 65536.

(** A JavaScript string: every element is a code unit. *)
Definition wf_string (s : jsstring) : Prop := Forall code_unit s.

(** A JavaScript value of the kind [json] stands for: strings are made of
    code units and a number is an integer that a binary64 number holds
    exactly and that [Number::toString] prints in plain decimal (magnitude
    below 2^53). *)
Fixpoint wf_json (v : json) : Prop :=
  match v with
  | JNull => True
  | JBool _ => True
  | JNumber n => - 2 ^ 53 < n < 2 ^ 53
  | JString s => wf_string s
  | JArray items =>
      (fix all (l : list json) : Prop :=
         match l with
         | [] => True
         | x :: rest => wf_json x /\ all rest
         end) items
  | JObject props =>
      (fix all (l : list (jsstring * json)) : Prop :=
         match l with
         | [] => True
         | (k, x) :: rest => wf_string k /\ wf_json x /\ all rest
         end) props
  end.

(** The same as a test. *)
Definition code_unitb (c : Z) : bool := (0 <=? c) && (c <? 65536).

Fixpoint wf_jsonb (v : json) : bool :=
  match v with
  | JNull => true
  | JBool _ => true
  | JNumber n => (- 2 ^ 53 <? n) && (n <? 2 ^ 53)
  | JString s => forallb code_unitb s
  | JArray items =>
      (fix all (l : list json) : bool :=
         match l with
         | [] => true
         | x :: rest => wf_jsonb x && all rest
         end) items
  | JObject props =>
      (fix all (l : list (jsstring * json)) : bool :=
         match l with
         | [] => true
         | (k, x) :: rest => forallb code_unitb k && wf_jsonb x && all rest
         end) props
  end.

Definition wf_items (l : list json) : Prop := wf_json (JArray l).
Definition wf_members (l : list (jsstring * json)) : Prop := wf_json (JObject l).

(** Size of a value, to bound the depth of the reader. *)
Fixpoint json_size (v : json) : nat :=
  match v with
  | JArray items =>
      S ((fix sum (l : list json) : nat :=
            match l with
            | [] => O
            | x :: rest => S (json_size x + sum rest)
            end) items)
  | JObject props =>
      S ((fix sum (l : list (jsstring * json)) : nat :=
            match l with
            | [] => O
            | (_, x) :: rest => S (json_size x + sum rest)
            end) props)
  | _ => 1%nat
  end.

Definition items_size (l : list json) : nat := pred (json_size (JArray l)).
Definition members_size (l : list (jsstring * json)) : nat :=
  pred (json_size (JObject l)).

Definition is_digit (c : Z) : bool := (48 <=? c) && (c <=? 57).

(** The text that follows a serialized value does not go on with a digit. *)
Definition no_digit_head (r : jsstring) : Prop :=
  match r with
  | [] => True
  | c :: _ => is_digit c = false
  end.

Definition unhex (h : Z) : Z := if h <? 58 then h - 48 else h - 87.

(** Reads the body of a quoted string up to the closing quote. *)
Fixpoint unquote (s : jsstring) : option (jsstring * jsstring) :=
  match s with
  | [] => None
  | c :: r =>
      if c =? 34 then Some ([], r)
      else if c =? 92 then
        match r with
        | [] => None
        | e :: r1 =>
            if e =? 117 then
              match r1 with
              | a :: b :: c' :: d :: r2 =>
                  match unquote r2 with
                  | Some (str, rest) =>
                      Some (4096 * unhex a + 256 * unhex b + 16 * unhex c' + unhex d
                            :: str, rest)
                  | None => None
                  end
              | _ => None
              end
            else
              let u := if e =? 98 then 8
                       else if e =? 116 then 9
                       else if e =? 110 then 10
                       else if e =? 102 then 12
                       else if e =? 114 then 13
                       else e in
              match unquote r1 with
              | Some (str, rest) => Some (u :: str, rest)
              | None => None
              end
        end
      else
        match unquote r with
        | Some (str, rest) => Some (c :: str, rest)
        | None => None
        end
  end.

Definition digit_cons (c : Z) (d : Decimal.uint) : Decimal.uint :=
  if c =? 48 then Decimal.D0 d
  else if c =? 49 then Decimal.D1 d
  else if c =? 50 then Decimal.D2 d
  else if c =? 51 then Decimal.D3 d
  else if c =? 52 then Decimal.D4 d
  else if c =? 53 then Decimal.D5 d
  else if c =? 54 then Decimal.D6 d
  else if c =? 55 then Decimal.D7 d
  else if c =? 56 then Decimal.D8 d
  else Decimal.D9 d.

(** Reads the longest run of digits. *)
Fixpoint read_uint (s : jsstring) : Decimal.uint * jsstring :=
  match s with
  | [] => (Decimal.Nil, [])
  | c :: r =>
      if is_digit c
      then let (d, rest) := read_uint r in (digit_cons c d, rest)
      else (Decimal.Nil, s)
  end.

(** Removes a given prefix. *)
Fixpoint strip (prefix s : jsstring) : option jsstring :=
  match prefix with
  | [] => Some s
  | p :: prefix' =>
      match s with
      | [] => None
      | c :: r => if c =? p then strip prefix' r else None
      end
  end.

(** One value, given readers for the elements of an array and the members
    of an object. *)
Definition value_with
    (items : jsstring -> option (list json * jsstring))
    (members : jsstring -> option (list (jsstring * json) * jsstring))
    (s : jsstring) : option (json * jsstring) :=
  match s with
  | [] => None
  | c :: r =>
      if c =? 110 then option_map (pair JNull) (strip (lit "ull") r)
      else if c =? 116 then option_map (pair (JBool true)) (strip (lit "rue") r)
      else if c =? 102 then option_map (pair (JBool false)) (strip (lit "alse") r)
      else if c =? 34 then
        match unquote r with
        | Some (str, rest) => Some (JString str, rest)
        | None => None
        end
      else if c =? 91 then
        match r with
        | [] => None
        | c2 :: r2 =>
            if c2 =? 93 then Some (JArray [], r2)
            else match items r with
                 | Some (l, rest) => Some (JArray l, rest)
                 | None => None
                 end
        end
      else if c =? 123 then
        match r with
        | [] => None
        | c2 :: r2 =>
            if c2 =? 125 then Some (JObject [], r2)
            else match members r with
                 | Some (l, rest) => Some (JObject l, rest)
                 | None => None
                 end
        end
      else if c =? 45 then
        let (d, rest) := read_uint r in
        Some (JNumber (- Z.of_N (Pos.of_uint d)), rest)
      else
        let (d, rest) := read_uint s in
        Some (JNumber (Z.of_N (Pos.of_uint d)), rest)
  end.

(** The elements of a non-empty array up to the closing bracket. *)
Definition items_with
    (value : jsstring -> option (json * jsstring))
    (items : jsstring -> option (list json * jsstring))
    (s : jsstring) : option (list json * jsstring) :=
  match value s with
  | Some (v, c :: r) =>
      if c =? 44 then
        match items r with
        | Some (l, rest) => Some (v :: l, rest)
        | None => None
        end
      else if c =? 93 then Some ([v], r)
      else None
  | _ => None
  end.

(** The members of a non-empty object up to the closing brace. *)
Definition members_with
    (value : jsstring -> option (json * jsstring))
    (members : jsstring -> option (list (jsstring * json) * jsstring))
    (s : jsstring) : option (list (jsstring * json) * jsstring) :=
  match s with
  | c0 :: r0 =>
      if c0 =? 34 then
        match unquote r0 with
        | Some (k, c1 :: r1) =>
            if c1 =? 58 then
              match value r1 with
              | Some (v, c :: r) =>
                  if c =? 44 then
                    match members r with
                    | Some (l, rest) => Some ((k, v) :: l, rest)
                    | None => None
                    end
                  else if c =? 125 then Some ([(k, v)], r)
                  else None
              | _ => None
              end
            else None
        | _ => None
        end
      else None
  | [] => None
  end.

Fixpoint parse (fuel : nat) (s : jsstring) {struct fuel} : option (json * jsstring) :=
  match fuel with
  | O => None
  | S fuel' => value_with (parse_items fuel') (parse_members fuel') s
  end
with parse_items (fuel : nat) (s : jsstring) {struct fuel}
    : option (list json * jsstring) :=
  match fuel with
  | O => None
  | S fuel' => items_with (parse fuel') (parse_items fuel') s
  end
with parse_members (fuel : nat) (s : jsstring) {struct fuel}
    : option (list (jsstring * json) * jsstring) :=
  match fuel with
  | O => None
  | S fuel' => members_with (parse fuel') (parse_members fuel') s
  end.

(** The text between the braces of a serialized object. *)
Fixpoint members_text (l : list (jsstring * json)) : jsstring :=
  match l with
  | [] => []
  | (k, x) :: rest =>
      QuoteJSONString k ++ 58 :: JSON_stringify x ++
      match rest with
      | [] => []
      | _ :: _ => 44 :: members_text rest
      end
  end.

(** A character a serialized value can start with. *)
Definition start_char (c : Z) : Prop :=
  c = 110 \/ c = 116 \/ c = 102 \/ c = 34 \/ c = 91 \/ c = 123 \/ c = 45 \/
  is_digit c = true.

End Decode.

(* ====================================================================== *)
(** ** Facts about the platform functions *)
(* ====================================================================== *)

Module JSFacts.
Import JS.

Lemma byteLength_nonneg (s : jsstring) : 0 <= Buffer_byteLength s.
Proof.
  enough (H : forall n (t : jsstring), (length t <= n)%nat -> 0 <= Buffer_byteLength t)
    by (apply (H (length s)); lia).
  induction n as [|n IH]; intros [|c [|d t]] Hlen;
    cbn [Buffer_byteLength length] in *; try lia.
  - destruct (is_lead c), (c <? 128), (c <? 2048); lia.
  - pose proof (IH (d :: t) ltac:(cbn [length]; lia)) as H1.
    pose proof (IH t ltac:(lia)) as H2.
    cbn [Buffer_byteLength] in H1.
    destruct (is_lead c), (is_trail d), (c <? 128), (c <? 2048); lia.
Qed.

Lemma byteLength_cons_pos (c : Z) (s : jsstring) : 1 <= Buffer_byteLength (c :: s).
Proof.
  pose proof (byteLength_nonneg s) as Hs.
  destruct s as [|d t]; cbn [Buffer_byteLength] in *.
  - destruct (is_lead c), (c <? 128), (c <? 2048); lia.
  - pose proof (byteLength_nonneg t) as Ht.
    destruct (is_lead c), (is_trail d), (c <? 128), (c <? 2048); lia.
Qed.

(** A code unit that is not a trail surrogate starts a fresh code point:
    the bytes before it and from it on add up. *)
Lemma byteLength_app_sep (a : jsstring) (c : Z) (b : jsstring) :
  is_trail c = false ->
  Buffer_byteLength (a ++ c :: b) = Buffer_byteLength a + Buffer_byteLength (c :: b).
Proof.
  intros Hc.
  enough (H : forall n (t : jsstring), (length t <= n)%nat ->
            Buffer_byteLength (t ++ c :: b)
            = Buffer_byteLength t + Buffer_byteLength (c :: b))
    by (apply (H (length a)); lia).
  induction n as [|n IH]; intros t Hlen.
  - destruct t; [reflexivity | simpl in Hlen; lia].
  - destruct t as [|x [|y t]].
    + reflexivity.
    + change ([x] ++ c :: b) with (x :: c :: b).
      cbn [Buffer_byteLength]. rewrite Hc.
      destruct (is_lead x), (x <? 128), (x <? 2048); lia.
    + pose proof (IH (y :: t) ltac:(simpl in *; lia)) as H1.
      pose proof (IH t ltac:(simpl in *; lia)) as H2.
      change ((x :: y :: t) ++ c :: b) with (x :: y :: (t ++ c :: b)).
      change ((y :: t) ++ c :: b) with (y :: (t ++ c :: b)) in H1.
      cbn [Buffer_byteLength] in *.
      destruct (is_lead x), (is_trail y), (x <? 128), (x <? 2048); lia.
Qed.

Lemma stringify_array (l : list json) :
  JSON_stringify (JArray l) = 91 :: elements l ++ [93].
Proof.
  destruct l; reflexivity.
Qed.

Lemma uint_units_nonnil (d : Decimal.uint) : d <> Decimal.Nil -> uint_units d <> [].
Proof. destruct d; simpl; congruence. Qed.

(** No JSON value serializes to the empty string. *)
Lemma stringify_nonempty (v : json) : JSON_stringify v <> [].
Proof.
  destruct v as [|[|]|[|p|p]|s|l|l]; cbn; try discriminate.
  apply uint_units_nonnil, DecimalPos.Unsigned.to_uint_nonnil.
Qed.

Lemma record_bytes_pos (v : json) : 1 <= record_bytes v.
Proof.
  unfold record_bytes. pose proof (stringify_nonempty v) as H.
  destruct (JSON_stringify v); [congruence | apply byteLength_cons_pos].
Qed.

Lemma elements_byteLength (l : list json) :
  Buffer_byteLength (elements l) = elements_bytes l.
Proof.
  induction l as [|x rest IH]; [reflexivity|].
  cbn [elements elements_bytes]. destruct rest as [|y rest].
  - rewrite app_nil_r. unfold record_bytes. lia.
  - rewrite byteLength_app_sep by reflexivity.
    change (Buffer_byteLength (44 :: elements (y :: rest)))
      with (1 + Buffer_byteLength (elements (y :: rest))).
    rewrite IH. unfold record_bytes. lia.
Qed.

(** The exact size of a serialized array: two brackets and the elements
    with their commas. *)
Lemma array_byteLength (l : list json) :
  Buffer_byteLength (JSON_stringify (JArray l)) = 2 + elements_bytes l.
Proof.
  rewrite stringify_array.
  change (Buffer_byteLength (91 :: elements l ++ [93]))
    with (1 + Buffer_byteLength (elements l ++ [93])).
  rewrite byteLength_app_sep by reflexivity.
  rewrite elements_byteLength.
  change (Buffer_byteLength [93]) with 1. lia.
Qed.

Lemma elements_bytes_nonneg (l : list json) : 0 <= elements_bytes l.
Proof.
  induction l as [|x rest IH]; cbn [elements_bytes]; [lia|].
  pose proof (record_bytes_pos x). destruct rest; lia.
Qed.

Lemma elements_bytes_snoc (l : list json) (v : json) :
  elements_bytes (l ++ [v])
  = match l with
    | [] => record_bytes v
    | _ :: _ => elements_bytes l + (record_bytes v + 1)
    end.
Proof.
  induction l as [|x rest IH]; [cbn; lia|].
  change ((x :: rest) ++ [v]) with (x :: (rest ++ [v])).
  cbn [elements_bytes]. rewrite IH.
  destruct rest as [|y rest]; cbn [app elements_bytes]; lia.
Qed.

(** [n > x] goes on holding when [n] grows. *)
Lemma gt_mono (n m : Z) (x : number) : n <= m -> gt n x = true -> gt m x = true.
Proof.
  intros Hnm. destruct x as [s|s| |s p e]; cbn [gt]; auto.
  - rewrite !Z.ltb_lt. lia.
  - destruct (0 <=? e); rewrite !Z.ltb_lt; [lia|].
    intros H. assert (0 <= 2 ^ (- e)) by (apply Z.pow_nonneg; lia). nia.
Qed.

(** Unless the number is NaN, [n <= x] is the negation of [n > x]. *)
Lemma le_negb_gt (n : Z) (x : number) : is_nan x = false -> le n x = negb (gt n x).
Proof.
  intros Hx. destruct x as [s|s| |s p e]; cbn [gt le is_nan] in *; try congruence.
  - apply Z.leb_antisym.
  - destruct (0 <=? e); apply Z.leb_antisym.
Qed.

End JSFacts.

(* ====================================================================== *)
(** ** A payload determines its batch *)
(* ====================================================================== *)

Module DecodeFacts.
Import JS JSFacts Decode.

Lemma unhex_hex (d : Z) : 0 <= d < 16 -> unhex (hex_digit d) = d.
Proof.
  intros H. unfold unhex, hex_digit.
  destruct (d <? 10) eqn:E; [apply Z.ltb_lt in E | apply Z.ltb_ge in E].
  - destruct (48 + d <? 58) eqn:E'; [lia | apply Z.ltb_ge in E'; lia].
  - destruct (87 + d <? 58) eqn:E'; [apply Z.ltb_lt in E'; lia | lia].
Qed.

Lemma escape_value (c : Z) :
  code_unit c ->
  4096 * unhex (hex_digit ((c / 4096) mod 16))
  + 256 * unhex (hex_digit ((c / 256) mod 16))
  + 16 * unhex (hex_digit ((c / 16) mod 16))
  + unhex (hex_digit (c mod 16)) = c.
Proof.
  intros H. unfold code_unit in H.
  rewrite !unhex_hex by (apply Z.mod_pos_bound; lia).
  Z.div_mod_to_equations. lia.
Qed.

Lemma unquote_escape (c : Z) (x : jsstring) :
  code_unit c ->
  unquote (UnicodeEscape c ++ x)
  = match unquote x with
    | Some (str, rest) => Some (c :: str, rest)
    | None => None
    end.
Proof.
  intros H. cbn [UnicodeEscape app unquote].
  change (92 =? 34) with false. change (92 =? 92) with true.
  change (117 =? 117) with true. cbv iota.
  now rewrite (escape_value c H).
Qed.

Lemma unquote_copy (c : Z) (x : jsstring) :
  c <> 34 -> c <> 92 ->
  unquote (c :: x)
  = match unquote x with
    | Some (str, rest) => Some (c :: str, rest)
    | None => None
    end.
Proof.
  intros H1 H2. cbn [unquote].
  apply Z.eqb_neq in H1, H2. now rewrite H1, H2.
Qed.

Lemma surrogate_range (c : Z) :
  is_lead c = true \/ is_trail c = true -> c <> 34 /\ c <> 92.
Proof.
  unfold is_lead, is_trail.
  intros [H|H]; apply andb_true_iff in H as [H _]; apply Z.leb_le in H; lia.
Qed.

(** Reading back a quoted string gives the string. *)
Lemma unquote_quote (s r : jsstring) :
  wf_string s -> unquote (quote_units s ++ 34 :: r) = Some (s, r).
Proof.
  enough (H : forall n (t : jsstring),
             (length t <= n)%nat -> wf_string t ->
             unquote (quote_units t ++ 34 :: r) = Some (t, r))
    by (apply (H (length s)); lia).
  induction n as [|n IH]; intros [|c rest] Hlen Hwf;
    try reflexivity; cbn [length] in Hlen; [lia|].
  inversion Hwf as [|? ? Hc Hrest]; subst.
  assert (IHrest : unquote (quote_units rest ++ 34 :: r) = Some (rest, r))
    by (apply IH; [lia | exact Hrest]).
  cbn [quote_units]. destruct (is_lead c) eqn:Elead.
  - destruct (surrogate_range c (or_introl Elead)) as [Hc1 Hc2].
    destruct rest as [|d rest'].
    + rewrite unquote_escape by assumption. reflexivity.
    + destruct (is_trail d) eqn:Etrail.
      * destruct (surrogate_range d (or_intror Etrail)) as [Hd1 Hd2].
        inversion Hrest as [|? ? Hd Hrest']; subst.
        cbn [app]. rewrite unquote_copy, unquote_copy by assumption.
        rewrite IH; [reflexivity | cbn [length] in Hlen; lia | exact Hrest'].
      * rewrite <- app_assoc, unquote_escape, IHrest by assumption. reflexivity.
  - destruct (is_trail c) eqn:Etrail.
    + rewrite <- app_assoc, unquote_escape, IHrest by assumption. reflexivity.
    + unfold quote_unit.
      destruct (c =? 8) eqn:E8; [apply Z.eqb_eq in E8; subst c;
        cbn [lit map String.list_ascii_of_string app]; cbn; now rewrite IHrest|].
      destruct (c =? 9) eqn:E9; [apply Z.eqb_eq in E9; subst c; cbn; now rewrite IHrest|].
      destruct (c =? 10) eqn:E10; [apply Z.eqb_eq in E10; subst c; cbn; now rewrite IHrest|].
      destruct (c =? 12) eqn:E12; [apply Z.eqb_eq in E12; subst c; cbn; now rewrite IHrest|].
      destruct (c =? 13) eqn:E13; [apply Z.eqb_eq in E13; subst c; cbn; now rewrite IHrest|].
      destruct (c =? 34) eqn:E34; [apply Z.eqb_eq in E34; subst c; cbn; now rewrite IHrest|].
      destruct (c =? 92) eqn:E92; [apply Z.eqb_eq in E92; subst c; cbn; now rewrite IHrest|].
      destruct (c <? 32) eqn:E32.
      * rewrite <- app_assoc, unquote_escape, IHrest by assumption. reflexivity.
      * apply Z.eqb_neq in E34, E92. cbn [app].
        rewrite unquote_copy, IHrest by assumption. reflexivity.
Qed.

Lemma read_uint_units (d : Decimal.uint) (r : jsstring) :
  no_digit_head r -> read_uint (uint_units d ++ r) = (d, r).
Proof.
  intros H. induction d as [|d IH|d IH|d IH|d IH|d IH|d IH|d IH|d IH|d IH|d IH];
    cbn [uint_units app].
  - destruct r as [|c r']; [reflexivity|].
    cbn [read_uint]. cbn [no_digit_head] in H. now rewrite H.
  - cbn [read_uint]. rewrite IH. reflexivity.
  - cbn [read_uint]. rewrite IH. reflexivity.
  - cbn [read_uint]. rewrite IH. reflexivity.
  - cbn [read_uint]. rewrite IH. reflexivity.
  - cbn [read_uint]. rewrite IH. reflexivity.
  - cbn [read_uint]. rewrite IH. reflexivity.
  - cbn [read_uint]. rewrite IH. reflexivity.
  - cbn [read_uint]. rewrite IH. reflexivity.
  - cbn [read_uint]. rewrite IH. reflexivity.
  - cbn [read_uint]. rewrite IH. reflexivity.
Qed.

Lemma uint_units_head (d : Decimal.uint) :
  d <> Decimal.Nil -> exists c t, uint_units d = c :: t /\ is_digit c = true.
Proof.
  destruct d; [congruence|..]; intros _; cbn [uint_units]; eauto.
Qed.

Lemma stringify_object (m : list (jsstring * json)) :
  JSON_stringify (JObject m) = 123 :: members_text m ++ [125].
Proof.
  destruct m; reflexivity.
Qed.

(** Every serialized value starts with a character that tells its kind. *)
Lemma stringify_head (v : json) :
  exists c t, JSON_stringify v = c :: t /\ start_char c.
Proof.
  unfold start_char.
  destruct v as [|[|]|[|p|p]|s|l|m];
    try (do 2 eexists; split; [reflexivity | tauto]).
  - destruct (uint_units_head (Pos.to_uint p)) as (c & t & E & Hc);
      [apply DecimalPos.Unsigned.to_uint_nonnil|].
    exists c, t. split; [exact E | tauto].
Qed.

Lemma start_char_facts (c : Z) :
  start_char c -> c <> 93 /\ c <> 125 /\ c <> 44 /\ c <> 58.
Proof.
  unfold start_char, is_digit. intros H.
  repeat (destruct H as [H|H]; [lia|]).
  apply andb_true_iff in H as [H1 H2]. apply Z.leb_le in H1, H2. lia.
Qed.

Lemma elements_head (l : list json) (r : jsstring) :
  l <> [] -> exists c t, elements l ++ r = c :: t /\ c <> 93.
Proof.
  destruct l as [|x l']; [congruence|]. intros _.
  destruct (stringify_head x) as (c & t & E & Hc).
  cbn [elements]. rewrite E. cbn [app].
  do 2 eexists; split; [reflexivity | apply (start_char_facts c Hc)].
Qed.

Lemma members_head (m : list (jsstring * json)) (r : jsstring) :
  m <> [] -> exists t, members_text m ++ r = 34 :: t.
Proof.
  destruct m as [|[k x] m']; [congruence|]. intros _.
  cbn [members_text]. unfold QuoteJSONString. cbn [app]. eauto.
Qed.

Section Readers.
Variable items : jsstring -> option (list json * jsstring).
Variable members : jsstring -> option (list (jsstring * json) * jsstring).

Lemma value_with_digits (d : Decimal.uint) (r : jsstring) :
  d <> Decimal.Nil -> no_digit_head r ->
  value_with items members (uint_units d ++ r)
  = Some (JNumber (Z.of_N (Pos.of_uint d)), r).
Proof.
  intros Hd Hr. pose proof (read_uint_units d r Hr) as Hread.
  destruct (uint_units_head d Hd) as (c & t & E & Hc).
  rewrite E in *. cbn [app] in *. unfold value_with.
  unfold is_digit in Hc. apply andb_true_iff in Hc as [H1 H2].
  apply Z.leb_le in H1, H2.
  repeat match goal with
         | |- context [c =? ?k] =>
             let E := fresh in
             destruct (c =? k) eqn:E; [apply Z.eqb_eq in E; lia | clear E]
         end.
  now rewrite Hread.
Qed.

Lemma value_with_minus (d : Decimal.uint) (r : jsstring) :
  no_digit_head r ->
  value_with items members (45 :: uint_units d ++ r)
  = Some (JNumber (- Z.of_N (Pos.of_uint d)), r).
Proof.
  intros Hr.
  change (value_with items members (45 :: uint_units d ++ r))
    with (let (d', rest) := read_uint (uint_units d ++ r) in
          Some (JNumber (- Z.of_N (Pos.of_uint d')), rest)).
  now rewrite read_uint_units.
Qed.

Lemma value_with_string (s r : jsstring) :
  wf_string s ->
  value_with items members (QuoteJSONString s ++ r) = Some (JString s, r).
Proof.
  intros Hs. unfold QuoteJSONString. cbn [app]. rewrite <- app_assoc. cbn [app].
  change (value_with items members (34 :: quote_units s ++ 34 :: r))
    with (match unquote (quote_units s ++ 34 :: r) with
          | Some (str, rest) => Some (JString str, rest)
          | None => None
          end).
  now rewrite unquote_quote.
Qed.

Lemma value_with_array (c : Z) (t : jsstring) :
  c <> 93 ->
  value_with items members (91 :: c :: t)
  = match items (c :: t) with
    | Some (l, rest) => Some (JArray l, rest)
    | None => None
    end.
Proof.
  intros H.
  change (value_with items members (91 :: c :: t))
    with (if c =? 93 then Some (JArray [], t)
          else match items (c :: t) with
               | Some (l, rest) => Some (JArray l, rest)
               | None => None
               end).
  apply Z.eqb_neq in H. now rewrite H.
Qed.

Lemma value_with_object (t : jsstring) :
  value_with items members (123 :: 34 :: t)
  = match members (34 :: t) with
    | Some (l, rest) => Some (JObject l, rest)
    | None => None
    end.
Proof. reflexivity. Qed.

End Readers.

Lemma items_size_cons (x : json) (l : list json) :
  items_size (x :: l) = S (json_size x + items_size l).
Proof. reflexivity. Qed.

Lemma members_size_cons (k : jsstring) (x : json) (m : list (jsstring * json)) :
  members_size ((k, x) :: m) = S (json_size x + members_size m).
Proof. reflexivity. Qed.

Lemma json_size_pos (v : json) : (1 <= json_size v)%nat.
Proof. destruct v; cbn [json_size]; lia. Qed.

Lemma no_digit_head_char (c : Z) (r : jsstring) :
  c = 44 \/ c = 93 \/ c = 125 -> no_digit_head (c :: r).
Proof.
  intros H. cbn [no_digit_head]. unfold is_digit.
  destruct H as [->| [->| ->]]; reflexivity.
Qed.

(** The reader undoes [JSON.stringify] on every well-formed value, whatever
    follows the text, given fuel for the size of the value. *)
Lemma parse_stringify (f : nat) :
  (forall v r, (json_size v <= f)%nat -> wf_json v -> no_digit_head r ->
     parse f (JSON_stringify v ++ r) = Some (v, r))
  /\ (forall l r, l <> [] -> (items_size l <= f)%nat -> wf_items l ->
     parse_items f (elements l ++ 93 :: r) = Some (l, r))
  /\ (forall m r, m <> [] -> (members_size m <= f)%nat -> wf_members m ->
     parse_members f (members_text m ++ 125 :: r) = Some (m, r)).
Proof.
  induction f as [|f (IHv & IHi & IHm)].
  - split; [|split].
    + intros v r Hs. pose proof (json_size_pos v). lia.
    + intros [|x l] r Hne Hs; [congruence|]. rewrite items_size_cons in Hs. lia.
    + intros [|[k x] m] r Hne Hs; [congruence|]. rewrite members_size_cons in Hs. lia.
  - split; [|split].
    + intros v r Hs Hwf Hr. cbn [parse].
      destruct v as [|[|]|[|p|p]|s|l|m]; try reflexivity.
      * change (JSON_stringify (JNumber 0)) with (uint_units (Decimal.D0 Decimal.Nil)).
        rewrite value_with_digits by (assumption || discriminate). reflexivity.
      * cbn [JSON_stringify Number_toString].
        rewrite value_with_digits
          by (assumption || apply DecimalPos.Unsigned.to_uint_nonnil).
        now rewrite DecimalPos.Unsigned.of_to.
      * cbn [JSON_stringify Number_toString app].
        rewrite value_with_minus by assumption.
        now rewrite DecimalPos.Unsigned.of_to.
      * cbn [JSON_stringify]. now apply value_with_string.
      * rewrite stringify_array. cbn [app]. rewrite <- app_assoc. cbn [app].
        destruct l as [|x l']; [reflexivity|].
        destruct (elements_head (x :: l') (93 :: r)) as (c & t & E & Hc);
          [discriminate|].
        rewrite E, value_with_array, <- E by assumption.
        rewrite IHi; [reflexivity | discriminate | | exact Hwf].
        change (json_size (JArray (x :: l'))) with (S (items_size (x :: l'))) in Hs.
        lia.
      * rewrite stringify_object. cbn [app]. rewrite <- app_assoc. cbn [app].
        destruct m as [|[k x] m']; [reflexivity|].
        destruct (members_head ((k, x) :: m') (125 :: r)) as (t & E);
          [discriminate|].
        rewrite E, value_with_object, <- E.
        rewrite IHm; [reflexivity | discriminate | | exact Hwf].
        change (json_size (JObject ((k, x) :: m')))
          with (S (members_size ((k, x) :: m'))) in Hs.
        lia.
    + intros [|x l] r Hne Hs Hwf; [congruence|].
      rewrite items_size_cons in Hs.
      change (wf_json x /\ wf_items l) in Hwf. destruct Hwf as [Hx Hl].
      cbn [parse_items elements]. unfold items_with. rewrite <- app_assoc.
      destruct l as [|y l'].
      * cbn [app]. rewrite IHv; [|lia|exact Hx|apply no_digit_head_char; tauto].
        reflexivity.
      * cbn [app]. rewrite IHv; [|lia|exact Hx|apply no_digit_head_char; tauto].
        change (44 =? 44) with true. cbv iota.
        rewrite IHi; [reflexivity | discriminate | lia | exact Hl].
    + intros [|[k x] m] r Hne Hs Hwf; [congruence|].
      rewrite members_size_cons in Hs.
      change (wf_string k /\ wf_json x /\ wf_members m) in Hwf.
      destruct Hwf as (Hk & Hx & Hm).
      cbn [parse_members members_text]. unfold members_with, QuoteJSONString.
      cbn [app]. change (34 =? 34) with true. cbv iota.
      rewrite <- !app_assoc. cbn [app]. rewrite unquote_quote by exact Hk.
      change (58 =? 58) with true. cbv iota. rewrite <- app_assoc.
      destruct m as [|[k' y] m'].
      * cbn [app]. rewrite IHv; [|lia|exact Hx|apply no_digit_head_char; tauto].
        reflexivity.
      * cbn [app]. rewrite IHv; [|lia|exact Hx|apply no_digit_head_char; tauto].
        change (44 =? 44) with true. cbv iota.
        rewrite IHm; [reflexivity | discriminate | lia | exact Hm].
Qed.

(** [JSON.stringify] is injective on well-formed values: the text
    determines the value. *)
Lemma stringify_inj (v w : json) :
  wf_json v -> wf_json w -> JSON_stringify v = JSON_stringify w -> v = w.
Proof.
  intros Hv Hw E.
  destruct (parse_stringify (json_size v + json_size w)) as (H & _).
  pose proof (H v [] ltac:(lia) Hv I) as H1.
  pose proof (H w [] ltac:(lia) Hw I) as H2.
  rewrite E in H1. congruence.
Qed.

Lemma wf_items_Forall (l : list json) : Forall wf_json l <-> wf_json (JArray l).
Proof.
  induction l as [|x l IH].
  - split; [intros _; exact I | constructor].
  - change (wf_json (JArray (x :: l))) with (wf_json x /\ wf_json (JArray l)).
    split.
    + intros H. inversion H; subst. tauto.
    + intros [Hx Hl]. constructor; tauto.
Qed.

Lemma code_unitb_sound (s : jsstring) : forallb code_unitb s = true -> wf_string s.
Proof.
  induction s as [|c s IH]; intros H; [constructor|].
  cbn [forallb] in H. apply andb_true_iff in H as [Hc Hs].
  constructor; [|now apply IH].
  unfold code_unitb in Hc. apply andb_true_iff in Hc as [H1 H2].
  apply Z.leb_le in H1. apply Z.ltb_lt in H2. unfold code_unit. lia.
Qed.

(** The test [wf_jsonb] is sound, by induction on the size of the value. *)
Lemma wf_jsonb_sound (v : json) : wf_jsonb v = true -> wf_json v.
Proof.
  enough (H : forall n,
             (forall v, (json_size v <= n)%nat -> wf_jsonb v = true -> wf_json v)
             /\ (forall l, (items_size l <= n)%nat ->
                            wf_jsonb (JArray l) = true -> wf_items l)
             /\ (forall m, (members_size m <= n)%nat ->
                            wf_jsonb (JObject m) = true -> wf_members m))
    by (apply (H (json_size v)); lia).
  induction n as [|n (IHv & IHi & IHm)].
  - split; [|split].
    + intros w Hs. pose proof (json_size_pos w). lia.
    + intros [|x l] Hs; [intros _; exact I|]. rewrite items_size_cons in Hs. lia.
    + intros [|[k x] m] Hs; [intros _; exact I|]. rewrite members_size_cons in Hs. lia.
  - split; [|split].
    + intros [|b|z|s|l|m] Hs Hb; try exact I.
      * cbn [wf_jsonb] in Hb. apply andb_true_iff in Hb as [H1 H2].
        apply Z.ltb_lt in H1, H2. cbn [wf_json]. lia.
      * now apply code_unitb_sound.
      * apply IHi; [|exact Hb].
        change (json_size (JArray l)) with (S (items_size l)) in Hs. lia.
      * apply IHm; [|exact Hb].
        change (json_size (JObject m)) with (S (members_size m)) in Hs. lia.
    + intros [|x l] Hs Hb; [exact I|]. rewrite items_size_cons in Hs.
      change (wf_jsonb x && wf_jsonb (JArray l) = true) in Hb.
      apply andb_true_iff in Hb as [Hx Hl].
      change (wf_json x /\ wf_items l). split; [apply IHv | apply IHi]; assumption || lia.
    + intros [|[k x] m] Hs Hb; [exact I|]. rewrite members_size_cons in Hs.
      change (forallb code_unitb k && wf_jsonb x && wf_jsonb (JObject m) = true) in Hb.
      apply andb_true_iff in Hb as [Hb Hm]. apply andb_true_iff in Hb as [Hk Hx].
      change (wf_string k /\ wf_json x /\ wf_members m).
      split; [now apply code_unitb_sound|].
      split; [apply IHv | apply IHm]; assumption || lia.
Qed.

Lemma wf_records (l : list json) : forallb wf_jsonb l = true -> Forall wf_json l.
Proof.
  intros H. apply Forall_forall. intros x Hin. apply wf_jsonb_sound.
  rewrite forallb_forall in H. now apply H.
Qed.

(** A payload determines its batch. *)
Lemma payload_inj (b b' : list json) :
  Forall wf_json b -> Forall wf_json b' ->
  Batcher.payload b = Batcher.payload b' -> b = b'.
Proof.
  intros Hb Hb' E. apply wf_items_Forall in Hb, Hb'.
  pose proof (stringify_inj (JArray b) (JArray b') Hb Hb' E) as H.
  congruence.
Qed.

(** The payloads the service received determine the batches. *)
Lemma payloads_inj (bs bs' : list (list json)) :
  Forall (Forall wf_json) bs -> Forall (Forall wf_json) bs' ->
  map Batcher.payload bs = map Batcher.payload bs' -> bs = bs'.
Proof.
  revert bs'. induction bs as [|b bs IH]; intros [|b' bs'] H H' E;
    try discriminate; [reflexivity|].
  inversion H as [|? ? Hb Hbs]; subst. inversion H' as [|? ? Hb' Hbs']; subst.
  cbn [map] in E.
  assert (E1 : Batcher.payload b = Batcher.payload b') by congruence.
  assert (E2 : map Batcher.payload bs = map Batcher.payload bs') by congruence.
  f_equal; [apply payload_inj | apply IH]; assumption.
Qed.

End DecodeFacts.

(* ====================================================================== *)
(** ** Facts about the closure *)
(* ====================================================================== *)

Module BatcherFacts.
Import JS JSFacts Batcher.

Section Closure.

Variable maxSizeMB : number.
Variable externalService : ExternalService.

#[local] Abbreviation maxSizeBytes := (Batcher.maxSizeBytes maxSizeMB).
#[local] Abbreviation sendBatch := (Batcher.sendBatch maxSizeMB externalService).
#[local] Abbreviation addProduct := (Batcher.addProduct maxSizeMB externalService).
#[local] Abbreviation addProducts := (Batcher.addProducts maxSizeMB externalService).
#[local] Abbreviation addProducts_loop := (Batcher.addProducts_loop maxSizeMB externalService).
#[local] Abbreviation flush := (Batcher.flush maxSizeMB externalService).
#[local] Abbreviation invoke := (Batcher.invoke maxSizeMB externalService).
#[local] Abbreviation script := (Batcher.script maxSizeMB externalService).
#[local] Abbreviation session := (Batcher.session maxSizeMB externalService).
#[local] Abbreviation counted := (Batcher.counted maxSizeMB).
#[local] Abbreviation is_full := (Batcher.is_full maxSizeMB).
#[local] Abbreviation Inv := (Batcher.Inv maxSizeMB).
#[local] Abbreviation batch_ok := (Batcher.batch_ok maxSizeMB).

Ltac run :=
  cbv [Batcher.sendBatch Batcher.addProduct Batcher.estimateProductSize
       Batcher.flush Batcher.printSummary Batcher.addProducts
       Batcher.externalService_call bind ret gets modify console_log].

(** *** The functions as state transformers *)

Lemma len_zero {A : Type} (l : list A) : (len l =? 0) = true <-> l = [].
Proof.
  unfold len. rewrite Z.eqb_eq. destruct l; cbn [length]; split; intros; try lia; congruence.
Qed.

Lemma len_pos {A : Type} (l : list A) : (len l >? 0) = true <-> l <> [].
Proof.
  unfold len. rewrite Z.gtb_ltb, Z.ltb_lt.
  destruct l; cbn [length]; split; intros; try lia; congruence.
Qed.

Lemma sendBatch_empty (st : State) :
  currentBatch st = [] -> sendBatch st = (Normal tt, st).
Proof.
  intros H. run. rewrite H. reflexivity.
Qed.

Lemma sendBatch_nonempty (st : State) :
  currentBatch st <> [] ->
  sendBatch st =
  match call externalService (calls st) (payload (currentBatch st)) with
  | None => (Normal tt, set_currentBatchSize 0 (set_currentBatch [] (counted st)))
  | Some e => (Throw e, counted st)
  end.
Proof.
  intros H. run.
  destruct (len (currentBatch st) =? 0) eqn:E; [apply len_zero in E; congruence|].
  unfold Batcher.counted, Batcher.is_full, payload.
  destruct (gt _ (mul maxSizeBytes lit_0_95)); cbn;
    destruct (call externalService _ _); reflexivity.
Qed.

Lemma printSummary_eq (st : State) :
  Batcher.printSummary st
  = (Normal tt, set_console (console st ++ summary_lines st) st).
Proof.
  run. unfold summary_lines.
  cbv [set_console currentBatch currentBatchSize totalProductsProcessed
       totalBatchesSent totalSizeProcessed totalFullBatchesSize fullBatchCount
       calls console].
  destruct st as [b sz tp tb ts tfs fc cl co].
  destruct (tb >? 0); [destruct (fc >? 0); destruct (tb - fc >? 0)|];
    rewrite <- !app_assoc; reflexivity.
Qed.

Lemma addProduct_eq (p : json) (st : State) :
  addProduct p st =
  let batch := currentBatch st in
  let estimatedNewSize :=
    currentBatchSize st + (record_bytes p + if len batch >? 0 then 1 else 0) in
  if gt estimatedNewSize maxSizeBytes && (len batch >? 0) then
    match sendBatch st with
    | (Normal _, st') =>
        (Normal tt, set_currentBatchSize (calculateBatchSize [p])
                      (set_currentBatch [p] st'))
    | (Throw e, st') => (Throw e, st')
    end
  else
    let batch' := batch ++ [p] in
    (Normal tt,
     set_currentBatchSize
       (if (len batch' <=? 3) || (len batch' mod 100 =? 0)
        then calculateBatchSize batch' else estimatedNewSize)
       (set_currentBatch batch' st)).
Proof.
  cbv [Batcher.addProduct Batcher.estimateProductSize bind ret gets modify].
  fold (record_bytes p).
  destruct (gt _ maxSizeBytes && (len (currentBatch st) >? 0)).
  - destruct (sendBatch st) as [[[]|e] st']; reflexivity.
  - cbn [currentBatch set_currentBatch].
    destruct ((len (currentBatch st ++ [p]) <=? 3)
              || (len (currentBatch st ++ [p]) mod 100 =? 0)); reflexivity.
Qed.

Lemma flush_eq (st : State) :
  flush st =
  match sendBatch st with
  | (Normal _, st') =>
      (Normal tt, set_console (console st' ++ summary_lines st') st')
  | (Throw e, st') => (Throw e, st')
  end.
Proof.
  unfold Batcher.flush, bind.
  destruct (sendBatch st) as [[[]|e] st']; [apply printSummary_eq | reflexivity].
Qed.

(** *** Sizes of batches *)

Lemma batch_bytes_eq (b : list json) : batch_bytes b = 2 + elements_bytes b.
Proof. apply array_byteLength. Qed.

(** Appending a record to a non-empty batch adds its own bytes and one
    comma: what [estimateProductSize] returns. *)
Lemma batch_bytes_snoc (b : list json) (p : json) :
  b <> [] -> batch_bytes (b ++ [p]) = batch_bytes b + (record_bytes p + 1).
Proof.
  intros Hb. rewrite !batch_bytes_eq, elements_bytes_snoc.
  destruct b; [congruence | lia].
Qed.

Lemma batch_bytes_single (p : json) : batch_bytes [p] = record_bytes p + 2.
Proof. rewrite batch_bytes_eq. cbn [elements_bytes]. lia. Qed.

Lemma calculateBatchSize_nonempty (b : list json) :
  b <> [] -> calculateBatchSize b = batch_bytes b.
Proof.
  intros Hb. unfold calculateBatchSize.
  destruct (len b =? 0) eqn:E; [apply len_zero in E; congruence | reflexivity].
Qed.

Lemma snoc_nonempty {A : Type} (l : list A) (x : A) : l ++ [x] <> [].
Proof. destruct l; discriminate. Qed.

Lemma exact_size_nonempty (b : list json) : b <> [] -> exact_size b = batch_bytes b.
Proof. destruct b; [congruence | reflexivity]. Qed.

Lemma len_snoc {A : Type} (l : list A) (x : A) : len (l ++ [x]) = len l + 1.
Proof. unfold len. rewrite length_app. cbn [length]. lia. Qed.

Lemma len_nonneg {A : Type} (l : list A) : 0 <= len l.
Proof. unfold len. lia. Qed.

Lemma sum_bytes_snoc (ps : list jsstring) (p : jsstring) :
  sum_bytes (ps ++ [p]) = sum_bytes ps + Buffer_byteLength p.
Proof.
  unfold sum_bytes. induction ps as [|q ps IH]; cbn [app fold_right]; lia.
Qed.

Lemma sum_bytes_nonneg (ps : list jsstring) : 0 <= sum_bytes ps.
Proof.
  unfold sum_bytes. induction ps as [|q ps IH]; cbn [fold_right]; [lia|].
  pose proof (byteLength_nonneg q). lia.
Qed.

Lemma sum_len_snoc (bs : list (list json)) (b : list json) :
  sum_len (bs ++ [b]) = sum_len bs + len b.
Proof.
  unfold sum_len. induction bs as [|q bs IH]; cbn [app fold_right]; lia.
Qed.

Lemma sum_len_concat (bs : list (list json)) : sum_len bs = len (List.concat bs).
Proof.
  unfold sum_len, len. induction bs as [|q bs IH]; cbn [List.concat fold_right]; [reflexivity|].
  rewrite length_app. lia.
Qed.

Lemma filter_snoc {A : Type} (f : A -> bool) (l : list A) (x : A) :
  filter f (l ++ [x]) = filter f l ++ (if f x then [x] else []).
Proof. rewrite filter_app. cbn [filter]. destruct (f x); reflexivity. Qed.

(** *** The tracked size is the exact size *)

Lemma size_tracked_sendBatch (st : State) :
  size_tracked st -> size_tracked (snd (sendBatch st)).
Proof.
  intros H. destruct (currentBatch st) as [|x b] eqn:E.
  - now rewrite sendBatch_empty.
  - rewrite sendBatch_nonempty by congruence.
    destruct (call externalService _ _); [exact H | reflexivity].
Qed.

Lemma size_tracked_append (p : json) (st : State) :
  size_tracked st ->
  size_tracked
    (set_currentBatchSize
       (if (len (currentBatch st ++ [p]) <=? 3)
           || (len (currentBatch st ++ [p]) mod 100 =? 0)
        then calculateBatchSize (currentBatch st ++ [p])
        else currentBatchSize st
             + (record_bytes p + if len (currentBatch st) >? 0 then 1 else 0))
       (set_currentBatch (currentBatch st ++ [p]) st)).
Proof.
  unfold size_tracked. intros H.
  cbn [currentBatchSize currentBatch set_currentBatchSize set_currentBatch].
  rewrite (exact_size_nonempty (currentBatch st ++ [p])) by apply snoc_nonempty.
  destruct (_ || _) eqn:E.
  - apply calculateBatchSize_nonempty, snoc_nonempty.
  - apply orb_false_iff in E as [E _]. rewrite len_snoc in E.
    apply Z.leb_gt in E.
    assert (Hb : currentBatch st <> [])
      by (intros Hb; rewrite Hb in E; cbn in E; lia).
    rewrite batch_bytes_snoc, H, exact_size_nonempty by assumption.
    apply len_pos in Hb. rewrite Hb. reflexivity.
Qed.

Lemma size_tracked_addProduct (p : json) (st : State) :
  size_tracked st -> size_tracked (snd (addProduct p st)).
Proof.
  intros H. rewrite addProduct_eq. cbv zeta.
  destruct (gt _ maxSizeBytes && _).
  - pose proof (size_tracked_sendBatch st H) as H'.
    destruct (sendBatch st) as [[[]|e] st']; [|exact H'].
    unfold size_tracked. cbn. reflexivity.
  - now apply size_tracked_append.
Qed.

Lemma size_tracked_console (c : list LogLine) (st : State) :
  size_tracked st -> size_tracked (set_console c st).
Proof. exact (fun H => H). Qed.

Lemma loop_cons (total : Z) (p : json) (ps : list json) (n : Z) (st : State) :
  addProducts_loop total (p :: ps) n st =
  match addProduct p st with
  | (Normal _, st1) =>
      addProducts_loop total ps (n + 1)
        (if (n + 1) mod 5000 =? 0
         then set_console (console st1 ++ [LogProgress (n + 1) total]) st1
         else st1)
  | (Throw e, st1) => (Throw e, st1)
  end.
Proof.
  cbn [Batcher.addProducts_loop]. unfold bind at 1.
  destruct (addProduct p st) as [[[]|e] st1]; [|reflexivity].
  unfold bind. destruct ((n + 1) mod 5000 =? 0); reflexivity.
Qed.

Lemma size_tracked_loop (total : Z) (ps : list json) :
  forall (n : Z) (st : State),
    size_tracked st -> size_tracked (snd (addProducts_loop total ps n st)).
Proof.
  induction ps as [|p ps IH]; intros n st H; [exact H|].
  rewrite loop_cons.
  pose proof (size_tracked_addProduct p st H) as H'.
  destruct (addProduct p st) as [[[]|e] st']; [|exact H'].
  apply IH. destruct (_ =? 0); exact H'.
Qed.

Lemma size_tracked_invoke (c : Call) (st : State) :
  size_tracked st -> size_tracked (snd (invoke c st)).
Proof.
  intros H. destruct c as [p|ps|]; cbn [Batcher.invoke].
  - now apply size_tracked_addProduct.
  - unfold Batcher.addProducts, bind, console_log, modify.
    pose proof (size_tracked_loop (len ps) ps 0 _
                  (size_tracked_console (console st ++ [LogProcessing (len ps)]) st H))
      as H'.
    destruct (addProducts_loop _ _ _ _) as [[[]|e] st']; exact H'.
  - rewrite flush_eq. pose proof (size_tracked_sendBatch st H) as H'.
    destruct (sendBatch st) as [[[]|e] st']; exact H'.
Qed.

(** *** The invariant of the closure *)

Lemma Inv_initial : Inv initial [].
Proof. split; try reflexivity; [constructor | cbn; lia]. Qed.

Lemma Inv_counted (st : State) (bs : list (list json)) :
  currentBatch st <> [] -> Inv st bs -> Inv (counted st) (bs ++ [currentBatch st]).
Proof.
  intros Hb [Hc Hbs Hsz Hcur Hp Hn Hby Hfc Hfb].
  split; cbn [Batcher.counted calls currentBatch currentBatchSize
              totalProductsProcessed totalBatchesSent totalSizeProcessed
              totalFullBatchesSize fullBatchCount].
  - rewrite map_app, Hc. reflexivity.
  - apply Forall_app. split; [exact Hbs|]. constructor; [|constructor].
    split; assumption.
  - exact Hsz.
  - exact Hcur.
  - rewrite sum_len_snoc. lia.
  - rewrite len_snoc. lia.
  - rewrite sum_bytes_snoc. lia.
  - rewrite filter_snoc. destruct (is_full _).
    + rewrite len_snoc. lia.
    + rewrite app_nil_r. exact Hfc.
  - rewrite filter_snoc. destruct (is_full _).
    + rewrite sum_bytes_snoc. lia.
    + rewrite app_nil_r. exact Hfb.
Qed.

Lemma Inv_reset (st : State) (bs : list (list json)) :
  Inv st bs -> Inv (set_currentBatchSize 0 (set_currentBatch [] st)) bs.
Proof.
  intros [Hc Hbs Hsz Hcur Hp Hn Hby Hfc Hfb].
  split; try assumption; [reflexivity | cbn; lia].
Qed.

Lemma Inv_console (c : list LogLine) (st : State) (bs : list (list json)) :
  Inv st bs -> Inv (set_console c st) bs.
Proof. intros [Hc Hbs Hsz Hcur Hp Hn Hby Hfc Hfb]. split; assumption. Qed.

Lemma Inv_single (p : json) (st : State) (bs : list (list json)) :
  Inv st bs ->
  Inv (set_currentBatchSize (calculateBatchSize [p]) (set_currentBatch [p] st)) bs.
Proof.
  intros [Hc Hbs Hsz Hcur Hp Hn Hby Hfc Hfb].
  split; try assumption; [reflexivity | cbn; lia].
Qed.

Lemma Inv_append (p : json) (st : State) (bs : list (list json)) :
  Inv st bs ->
  gt (currentBatchSize st
      + (record_bytes p + if len (currentBatch st) >? 0 then 1 else 0))
     maxSizeBytes && (len (currentBatch st) >? 0) = false ->
  Inv (set_currentBatchSize
         (if (len (currentBatch st ++ [p]) <=? 3)
             || (len (currentBatch st ++ [p]) mod 100 =? 0)
          then calculateBatchSize (currentBatch st ++ [p])
          else currentBatchSize st
               + (record_bytes p + if len (currentBatch st) >? 0 then 1 else 0))
         (set_currentBatch (currentBatch st ++ [p]) st)) bs.
Proof.
  intros [Hc Hbs Hsz Hcur Hp Hn Hby Hfc Hfb] Hfit.
  split; try assumption.
  - now apply size_tracked_append.
  - cbn [currentBatch set_currentBatchSize set_currentBatch]. intros Hlen.
    rewrite length_app in Hlen. cbn [length] in Hlen.
    assert (Hb : currentBatch st <> [])
      by (intros Hb; rewrite Hb in Hlen; cbn in Hlen; lia).
    pose proof Hb as Hpos. apply len_pos in Hpos. rewrite Hpos in Hfit.
    rewrite andb_true_r in Hfit.
    rewrite batch_bytes_snoc by assumption.
    unfold size_tracked in Hsz. rewrite Hsz, exact_size_nonempty in Hfit by assumption.
    exact Hfit.
Qed.

(** [sendBatch]: the invariant goes on holding; when the call returns, the
    current batch has joined the batches handed over. *)
Lemma sendBatch_step (st : State) (bs : list (list json)) :
  Inv st bs ->
  exists bs',
    Inv (snd (sendBatch st)) bs' /\
    (fst (sendBatch st) = Normal tt ->
     currentBatch (snd (sendBatch st)) = [] /\
     List.concat bs' = List.concat bs ++ currentBatch st).
Proof.
  intros H. destruct (currentBatch st) as [|x b] eqn:E.
  - rewrite sendBatch_empty by assumption. exists bs.
    cbn [fst snd]. rewrite app_nil_r. auto.
  - assert (Hb : currentBatch st <> []) by congruence.
    rewrite sendBatch_nonempty by assumption.
    exists (bs ++ [currentBatch st]).
    pose proof (Inv_counted st bs Hb H) as Hc.
    destruct (call externalService _ _); cbn [fst snd].
    + split; [exact Hc | discriminate].
    + split; [now apply Inv_reset|]. intros _. split; [reflexivity|].
      rewrite concat_app, E. cbn [List.concat]. now rewrite app_nil_r.
Qed.

(** [addProduct]: when the call returns, the record is the last one of the
    records taken so far. *)
Lemma addProduct_step (p : json) (st : State) (bs : list (list json)) :
  Inv st bs ->
  exists bs',
    Inv (snd (addProduct p st)) bs' /\
    (fst (addProduct p st) = Normal tt ->
     List.concat bs' ++ currentBatch (snd (addProduct p st))
     = (List.concat bs ++ currentBatch st) ++ [p]).
Proof.
  intros H. rewrite addProduct_eq. cbv zeta.
  destruct (gt _ maxSizeBytes && _) eqn:E.
  - destruct (sendBatch_step st bs H) as (bs' & Hinv & Hn).
    exists bs'. destruct (sendBatch st) as [[[]|e] st']; cbn [fst snd] in *.
    + split; [now apply Inv_single|]. intros _.
      destruct (Hn eq_refl) as [_ Hcat]. now rewrite Hcat.
    + split; [exact Hinv | discriminate].
  - exists bs. cbn [fst snd]. split; [now apply Inv_append|].
    intros _. cbn. now rewrite app_assoc.
Qed.

Lemma loop_step (total : Z) (ps : list json) :
  forall (n : Z) (st : State) (bs : list (list json)),
    Inv st bs ->
    exists bs',
      Inv (snd (addProducts_loop total ps n st)) bs' /\
      (fst (addProducts_loop total ps n st) = Normal tt ->
       List.concat bs' ++ currentBatch (snd (addProducts_loop total ps n st))
       = (List.concat bs ++ currentBatch st) ++ ps).
Proof.
  induction ps as [|p ps IH]; intros n st bs H.
  - exists bs. cbn [Batcher.addProducts_loop ret fst snd]. rewrite app_nil_r. auto.
  - rewrite loop_cons.
    destruct (addProduct_step p st bs H) as (bs1 & H1 & Hn1).
    destruct (addProduct p st) as [[[]|e] st1]; cbn [fst snd] in *.
    + set (st2 := if (n + 1) mod 5000 =? 0
                  then set_console (console st1 ++ [LogProgress (n + 1) total]) st1
                  else st1).
      assert (H2 : Inv st2 bs1)
        by (subst st2; destruct (_ =? 0); [now apply Inv_console | exact H1]).
      assert (Hsame : currentBatch st2 = currentBatch st1)
        by (subst st2; destruct (_ =? 0); reflexivity).
      destruct (IH (n + 1) st2 bs1 H2) as (bs' & H' & Hn').
      exists bs'. split; [exact H'|]. intros Hok.
      rewrite (Hn' Hok), Hsame, (Hn1 eq_refl).
      now rewrite <- !app_assoc.
    + exists bs1. split; [exact H1 | discriminate].
Qed.

Lemma addProducts_step (ps : list json) (st : State) (bs : list (list json)) :
  Inv st bs ->
  exists bs',
    Inv (snd (addProducts ps st)) bs' /\
    (fst (addProducts ps st) = Normal tt ->
     List.concat bs' ++ currentBatch (snd (addProducts ps st))
     = (List.concat bs ++ currentBatch st) ++ ps).
Proof.
  intros H. unfold Batcher.addProducts, bind, console_log, modify.
  destruct (loop_step (len ps) ps 0
              (set_console (console st ++ [LogProcessing (len ps)]) st) bs
              (Inv_console _ _ _ H)) as (bs' & H' & Hn).
  exists bs'.
  destruct (addProducts_loop _ _ _ _) as [[[]|e] st']; cbn [fst snd] in *.
  - split; [now apply Inv_console|]. intros _. exact (Hn eq_refl).
  - split; [exact H' | discriminate].
Qed.

Lemma flush_step (st : State) (bs : list (list json)) :
  Inv st bs ->
  exists bs',
    Inv (snd (flush st)) bs' /\
    (fst (flush st) = Normal tt ->
     currentBatch (snd (flush st)) = [] /\
     List.concat bs' = List.concat bs ++ currentBatch st).
Proof.
  intros H. rewrite flush_eq.
  destruct (sendBatch_step st bs H) as (bs' & H' & Hn).
  exists bs'. destruct (sendBatch st) as [[[]|e] st']; cbn [fst snd] in *.
  - split; [now apply Inv_console|]. intros _. exact (Hn eq_refl).
  - split; [exact H' | discriminate].
Qed.

Lemma invoke_step (c : Call) (st : State) (bs : list (list json)) :
  Inv st bs ->
  exists bs',
    Inv (snd (invoke c st)) bs' /\
    (fst (invoke c st) = Normal tt ->
     List.concat bs' ++ currentBatch (snd (invoke c st))
     = (List.concat bs ++ currentBatch st) ++ records [c]).
Proof.
  intros H. destruct c as [p|ps|]; cbn [Batcher.invoke records].
  - apply addProduct_step, H.
  - rewrite app_nil_r. apply addProducts_step, H.
  - destruct (flush_step st bs H) as (bs' & H' & Hn). exists bs'.
    split; [exact H'|]. intros Hok. destruct (Hn Hok) as [Hcur Hcat].
    now rewrite Hcur, Hcat, !app_nil_r.
Qed.

(** Whatever the caller does and whatever the service throws, the
    invariant holds. *)
Lemma session_Inv (cs : list Call) :
  forall (st : State) (bs : list (list json)),
    Inv st bs -> exists bs', Inv (session cs st) bs'.
Proof.
  induction cs as [|c cs IH]; intros st bs H; [now exists bs|].
  cbn [Batcher.session].
  destruct (invoke_step c st bs H) as (bs1 & H1 & _). eauto.
Qed.

Lemma records_app (cs cs' : list Call) : records (cs ++ cs') = records cs ++ records cs'.
Proof.
  induction cs as [|[p|ps|] cs IH]; cbn [app records]; rewrite ?IH, ?app_assoc; reflexivity.
Qed.

(** A sequence of calls that all return has taken every record, in order:
    the records are the batches handed over followed by the current batch. *)
Lemma script_step (cs : list Call) :
  forall (st : State) (bs : list (list json)),
    Inv st bs ->
    exists bs',
      Inv (snd (script cs st)) bs' /\
      (fst (script cs st) = Normal tt ->
       List.concat bs' ++ currentBatch (snd (script cs st))
       = (List.concat bs ++ currentBatch st) ++ records cs).
Proof.
  induction cs as [|c cs IH]; intros st bs H.
  - exists bs. cbn. rewrite app_nil_r. auto.
  - cbn [Batcher.script]. unfold bind.
    destruct (invoke_step c st bs H) as (bs1 & H1 & Hn1).
    destruct (invoke c st) as [[[]|e] st1]; cbn [fst snd] in *.
    + destruct (IH st1 bs1 H1) as (bs' & H' & Hn').
      exists bs'. split; [exact H'|]. intros Hok.
      rewrite (Hn' Hok), (Hn1 eq_refl).
      change (c :: cs) with ([c] ++ cs). rewrite records_app.
      now rewrite <- !app_assoc.
    + exists bs1. split; [exact H1 | discriminate].
Qed.

Lemma script_app (cs cs' : list Call) (st : State) :
  script (cs ++ cs') st =
  match script cs st with
  | (Normal _, st1) => script cs' st1
  | (Throw e, st1) => (Throw e, st1)
  end.
Proof.
  revert st. induction cs as [|c cs IH]; intros st; [reflexivity|].
  cbn [app Batcher.script]. unfold bind.
  destruct (invoke c st) as [[[]|e] st1]; [apply IH | reflexivity].
Qed.

Lemma payload_not_brackets (b : list json) : b <> [] -> payload b <> lit "[]".
Proof.
  intros Hb Heq. apply (f_equal Buffer_byteLength) in Heq.
  fold (batch_bytes b) in Heq. rewrite batch_bytes_eq in Heq.
  destruct b as [|x b]; [congruence|]. cbn [elements_bytes] in Heq.
  pose proof (record_bytes_pos x). pose proof (elements_bytes_nonneg b).
  change (Buffer_byteLength (lit "[]")) with 2 in Heq. destruct b; lia.
Qed.

(** Calls that bring no record leave an empty batcher alone. *)
Lemma idle_session (cs : list Call) :
  forall st : State,
    currentBatch st = [] -> records cs = [] ->
    calls (session cs st) = calls st /\ currentBatch (session cs st) = [].
Proof.
  induction cs as [|[p|ps|] cs IH]; intros st Hb Hr; cbn [records] in Hr.
  - auto.
  - discriminate.
  - apply app_eq_nil in Hr as [-> Hr]. cbn [Batcher.session Batcher.invoke].
    destruct (IH (snd (addProducts [] st)) Hb Hr) as [-> ->]. auto.
  - cbn [Batcher.session Batcher.invoke].
    rewrite flush_eq, sendBatch_empty by assumption. cbn [snd].
    destruct (IH (set_console (console st ++ summary_lines st) st) Hb Hr) as [-> ->].
    auto.
Qed.

Lemma sum_bytes_filter_le (f : jsstring -> bool) (ps : list jsstring) :
  0 <= sum_bytes (filter f ps) <= sum_bytes ps.
Proof.
  unfold sum_bytes. induction ps as [|q ps IH]; cbn [filter fold_right]; [lia|].
  pose proof (byteLength_nonneg q). destruct (f q); cbn [fold_right]; lia.
Qed.

Lemma len_filter_le {A : Type} (f : A -> bool) (l : list A) :
  0 <= len (filter f l) <= len l.
Proof. unfold len. pose proof (filter_length_le f l). lia. Qed.

Lemma flush_normal_empty (st st' : State) :
  flush st = (Normal tt, st') -> currentBatch st' = [].
Proof.
  rewrite flush_eq. destruct (currentBatch st) as [|x b] eqn:E.
  - rewrite sendBatch_empty by assumption. intros [= <-]. exact E.
  - rewrite sendBatch_nonempty by congruence.
    destruct (call externalService _ _); [discriminate|]. now intros [= <-].
Qed.

Lemma script_flush_empty (cs : list Call) (st0 st : State) :
  script (cs ++ [Flush]) st0 = (Normal tt, st) -> currentBatch st = [].
Proof.
  rewrite script_app. destruct (script cs st0) as [[[]|e] st1]; [|discriminate].
  cbn [Batcher.script Batcher.invoke]. unfold bind.
  destruct (flush st1) as [[[]|e] st2] eqn:E; [|discriminate].
  intros [= <-]. eapply flush_normal_empty, E.
Qed.

(** *** The full batches are among the batches sent *)

Lemma stats_ordered_sendBatch (st : State) :
  stats_ordered st -> stats_ordered (snd (sendBatch st)).
Proof.
  intros H. destruct (currentBatch st) as [|x b] eqn:E.
  - now rewrite sendBatch_empty.
  - rewrite sendBatch_nonempty by congruence.
    pose proof (byteLength_nonneg (payload (currentBatch st))) as Hp.
    unfold stats_ordered in *.
    destruct (call externalService _ _);
      cbn [snd Batcher.counted set_currentBatch set_currentBatchSize
           fullBatchCount totalBatchesSent totalFullBatchesSize totalSizeProcessed];
      rewrite E in *; destruct (is_full _); lia.
Qed.

Lemma stats_ordered_addProduct (p : json) (st : State) :
  stats_ordered st -> stats_ordered (snd (addProduct p st)).
Proof.
  intros H. rewrite addProduct_eq. cbv zeta.
  destruct (gt _ maxSizeBytes && _); [|exact H].
  pose proof (stats_ordered_sendBatch st H) as H'.
  destruct (sendBatch st) as [[[]|e] st']; exact H'.
Qed.

Lemma stats_ordered_loop (total : Z) (ps : list json) :
  forall (n : Z) (st : State),
    stats_ordered st -> stats_ordered (snd (addProducts_loop total ps n st)).
Proof.
  induction ps as [|p ps IH]; intros n st H; [exact H|].
  rewrite loop_cons.
  pose proof (stats_ordered_addProduct p st H) as H'.
  destruct (addProduct p st) as [[[]|e] st']; [|exact H'].
  apply IH. destruct (_ =? 0); exact H'.
Qed.

Lemma stats_ordered_invoke (c : Call) (st : State) :
  stats_ordered st -> stats_ordered (snd (invoke c st)).
Proof.
  intros H. destruct c as [p|ps|]; cbn [Batcher.invoke].
  - now apply stats_ordered_addProduct.
  - unfold Batcher.addProducts, bind, console_log, modify.
    pose proof (stats_ordered_loop (len ps) ps 0
                  (set_console (console st ++ [LogProcessing (len ps)]) st) H)
      as H'.
    destruct (addProducts_loop _ _ _ _) as [[[]|e] st']; exact H'.
  - rewrite flush_eq. pose proof (stats_ordered_sendBatch st H) as H'.
    destruct (sendBatch st) as [[[]|e] st']; exact H'.
Qed.

(** *** The properties of the design document *)

(** C1 (size bound, general case).  Whatever calls are made and whatever
    the service does, every batch handed to the service that holds more than
    one record has an exact UTF-8 serialized size of at most [maxSizeBytes]
    (the limit being a number, not NaN). *)
Theorem size_bound_general (cs : list Call) :
  is_nan maxSizeBytes = false ->
  (exists bs : list (list json),
     calls (session cs initial) = map payload bs /\
     Forall (fun b => (1 < length b)%nat ->
                      le (Buffer_byteLength (payload b)) maxSizeBytes = true) bs) /\
  Forall (fun p => le (Buffer_byteLength p) maxSizeBytes = true \/
                   exists r : json, p = payload [r])
    (calls (session cs initial)).
Proof.
  intros Hnan. destruct (session_Inv cs initial [] Inv_initial) as (bs & H).
  pose proof (inv_batches _ _ _ H) as Hbs.
  assert (Hle : forall b, (1 < length b)%nat -> batch_ok b ->
                          le (Buffer_byteLength (payload b)) maxSizeBytes = true).
  { intros b Hlen [_ Hb]. rewrite le_negb_gt by assumption.
    unfold batch_bytes in Hb. now rewrite Hb. }
  split.
  - exists bs. split; [apply H|].
    eapply Forall_impl; [|exact Hbs]. intros b Hok Hlen. now apply Hle.
  - rewrite (inv_calls _ _ _ H). apply Forall_map.
    eapply Forall_impl; [|exact Hbs]. intros b Hok.
    destruct b as [|x [|y b]].
    + now destruct Hok.
    + right. now exists x.
    + left. apply Hle; [cbn [length]; lia | exact Hok].
Qed.

(** C2 (order preservation and completeness), as the code has it.  When
    records are fed through [addProduct] and [addProducts] and the batcher
    is then flushed, and every one of these calls returns (the service
    throws on none of its invocations), the payloads received by the service
    are the serializations of batches whose concatenation, in emission
    order, is exactly the sequence of records fed in; the record counts of
    the batches add up to the number of records, and so does the batcher's
    own count.  The payloads determine these batches: whatever well-formed
    batches serialize to the payloads received are those batches, so reading
    the payloads back and concatenating gives the records fed in. *)
Theorem order_preserved (cs : list Call) (st : State) :
  script (cs ++ [Flush]) initial = (Normal tt, st) ->
  exists bs : list (list json),
    calls st = map payload bs /\
    List.concat bs = records cs /\
    sum_len bs = len (records cs) /\
    totalProductsProcessed st = len (records cs) /\
    (Forall Decode.wf_json (records cs) ->
     forall bs' : list (list json),
       Forall (Forall Decode.wf_json) bs' ->
       calls st = map payload bs' ->
       bs' = bs /\ List.concat bs' = records cs /\ sum_len bs' = len (records cs)).
Proof.
  intros Hrun.
  pose proof (script_flush_empty cs initial st Hrun) as Hcur.
  destruct (script_step (cs ++ [Flush]) initial [] Inv_initial) as (bs & H & Hn).
  rewrite Hrun in H, Hn. cbn [fst snd] in H, Hn. specialize (Hn eq_refl).
  rewrite Hcur, records_app, !app_nil_r in Hn. cbn [List.concat initial currentBatch app] in Hn.
  assert (Hsum : sum_len bs = len (records cs)) by now rewrite sum_len_concat, Hn.
  exists bs. split; [apply H|]. split; [exact Hn|]. split; [exact Hsum|].
  split; [now rewrite (inv_products _ _ _ H)|].
  intros Hwf bs' Hwf' Hcalls.
  assert (E : bs' = bs).
  { apply DecodeFacts.payloads_inj; [exact Hwf'| |].
    - apply Forall_concat. now rewrite Hn.
    - now rewrite <- Hcalls, (inv_calls _ _ _ H). }
  subst bs'. auto.
Qed.

(** C3 (failure of the service), as the code has it.  When the service
    throws on a non-empty batch, the exception leaves [sendBatch], [flush]
    and an [addProduct] that had to send, uncaught; the statistics already
    count the batch as sent (records, batches, bytes, full batches); the
    batch and its tracked size are as they were when the service was
    invoked: the two resetting assignments come after the invocation and are
    not reached. *)
Theorem service_failure (st : State) (e : JSError) :
  currentBatch st <> [] ->
  call externalService (calls st) (payload (currentBatch st)) = Some e ->
  let st' := snd (sendBatch st) in
  sendBatch st = (Throw e, st') /\
  flush st = (Throw e, st') /\
  (forall p : json,
     gt (currentBatchSize st + (record_bytes p + 1)) maxSizeBytes = true ->
     addProduct p st = (Throw e, st')) /\
  calls st' = calls st ++ [payload (currentBatch st)] /\
  totalProductsProcessed st' = totalProductsProcessed st + len (currentBatch st) /\
  totalBatchesSent st' = totalBatchesSent st + 1 /\
  totalSizeProcessed st' = totalSizeProcessed st + batch_bytes (currentBatch st) /\
  fullBatchCount st'
  = fullBatchCount st + (if is_full (payload (currentBatch st)) then 1 else 0) /\
  totalFullBatchesSize st'
  = totalFullBatchesSize st
    + (if is_full (payload (currentBatch st)) then batch_bytes (currentBatch st) else 0) /\
  currentBatch st' = currentBatch st /\
  currentBatchSize st' = currentBatchSize st.
Proof.
  intros Hb He st'. subst st'.
  assert (Hs : sendBatch st = (Throw e, counted st))
    by (rewrite sendBatch_nonempty, He by assumption; reflexivity).
  rewrite Hs. cbn [snd].
  split; [reflexivity|]. split; [now rewrite flush_eq, Hs|].
  split.
  { intros p Hp. rewrite addProduct_eq. cbv zeta.
    apply len_pos in Hb. rewrite Hb, Hp. cbn [andb]. now rewrite Hs. }
  cbn [Batcher.counted calls currentBatch currentBatchSize totalProductsProcessed
       totalBatchesSent totalSizeProcessed totalFullBatchesSize fullBatchCount].
  unfold batch_bytes.
  destruct (is_full _); repeat split; lia.
Qed.

Lemma addProduct_overflow (p : json) (st : State) :
  currentBatch st <> [] ->
  gt (currentBatchSize st + (record_bytes p + 1)) maxSizeBytes = true ->
  call externalService (calls st) (payload (currentBatch st)) = None ->
  addProduct p st
  = (Normal tt,
     set_currentBatchSize (calculateBatchSize [p])
       (set_currentBatch [p]
          (set_currentBatchSize 0 (set_currentBatch [] (counted st))))).
Proof.
  intros Hb Hgt Hcall. rewrite addProduct_eq. cbv zeta.
  pose proof Hb as Hpos. apply len_pos in Hpos. rewrite Hpos, Hgt. cbn [andb].
  now rewrite sendBatch_nonempty, Hcall.
Qed.

Lemma exact_size_nonneg (b : list json) : 0 <= exact_size b.
Proof.
  destruct b as [|x b]; cbn [exact_size]; [lia|]. apply byteLength_nonneg.
Qed.

(** A record that is larger than the limit ends up alone in the current
    batch. *)
Lemma oversized_lands_alone (r : json) (st : State) :
  size_tracked st ->
  currentBatch st = [] \/
  call externalService (calls st) (payload (currentBatch st)) = None ->
  gt (record_bytes r) maxSizeBytes = true ->
  fst (addProduct r st) = Normal tt /\
  currentBatch (snd (addProduct r st)) = [r] /\
  currentBatchSize (snd (addProduct r st)) = batch_bytes [r].
Proof.
  intros Hsz Hsvc Hr. destruct (currentBatch st) as [|x b] eqn:E.
  - rewrite addProduct_eq. cbv zeta. rewrite E.
    change (len (@nil json) >? 0) with false. rewrite andb_false_r.
    cbn [fst snd app currentBatch currentBatchSize set_currentBatch
         set_currentBatchSize].
    change (len [r] <=? 3) with true. cbn [orb].
    rewrite calculateBatchSize_nonempty by discriminate. auto.
  - assert (Hb : currentBatch st <> []) by congruence.
    rewrite addProduct_overflow; try assumption.
    + cbn [fst snd currentBatch currentBatchSize set_currentBatch
           set_currentBatchSize].
      rewrite calculateBatchSize_nonempty by discriminate. auto.
    + apply (gt_mono (record_bytes r)); [|exact Hr].
      unfold size_tracked in Hsz. rewrite Hsz.
      pose proof (exact_size_nonneg (currentBatch st)). lia.
    + destruct Hsvc as [Hsvc|Hsvc]; [discriminate | now rewrite E].
Qed.

(** C4 (oversized record), as the code has it.  A record whose serialized
    size exceeds the limit makes up, alone, a batch that exceeds the limit.
    [addProduct] puts it alone in the current batch, without error, when no
    batch is pending or the service returns on the pending batch; that batch
    of one record is handed to the service as it is by the next [flush] and
    by the next [addProduct], whatever the service then answers.  When the
    service throws on the pending batch, [addProduct] throws the same
    exception, the record is dropped and the pending batch stays.  The
    batches that may exceed the limit are the batches of exactly one record,
    where the record's serialized size plus the two brackets exceeds it. *)
Theorem oversized_record (cs : list Call) (r : json) :
  let st := session cs initial in
  let st1 := snd (addProduct r st) in
  (gt (record_bytes r) maxSizeBytes = true ->
   gt (batch_bytes [r]) maxSizeBytes = true /\
   (currentBatch st = [] \/
    call externalService (calls st) (payload (currentBatch st)) = None ->
    fst (addProduct r st) = Normal tt /\
    currentBatch st1 = [r] /\
    calls (snd (flush st1)) = calls st1 ++ [payload [r]] /\
    (call externalService (calls st1) (payload [r]) = None ->
     fst (flush st1) = Normal tt) /\
    (forall r' : json,
       calls (snd (addProduct r' st1)) = calls st1 ++ [payload [r]] /\
       (call externalService (calls st1) (payload [r]) = None ->
        fst (addProduct r' st1) = Normal tt /\
        currentBatch (snd (addProduct r' st1)) = [r']))) /\
   (forall e : JSError,
      currentBatch st <> [] ->
      call externalService (calls st) (payload (currentBatch st)) = Some e ->
      fst (addProduct r st) = Throw e /\
      currentBatch st1 = currentBatch st /\
      calls st1 = calls st ++ [payload (currentBatch st)])) /\
  (exists bs : list (list json),
     calls st = map payload bs /\
     Forall (fun b =>
               gt (batch_bytes b) maxSizeBytes = true ->
               exists x : json,
                 b = [x] /\ gt (record_bytes x + 2) maxSizeBytes = true) bs).
Proof.
  intros st st1. subst st1 st.
  destruct (session_Inv cs initial [] Inv_initial) as (bs & H).
  split.
  - intros Hr.
    assert (Hbig : gt (batch_bytes [r]) maxSizeBytes = true).
    { apply (gt_mono (record_bytes r)); [|exact Hr].
      rewrite batch_bytes_single. lia. }
    split; [exact Hbig|]. split.
    + intros Hsvc.
      destruct (oversized_lands_alone r _ (inv_size _ _ _ H) Hsvc Hr)
        as (Hok & Hcur & Hsize).
      set (st1 := snd (addProduct r (session cs initial))) in *.
      assert (Hne : currentBatch st1 <> []) by (rewrite Hcur; discriminate).
      split; [exact Hok|]. split; [exact Hcur|].
      split.
      { rewrite flush_eq, sendBatch_nonempty, Hcur by assumption.
        destruct (call externalService (calls st1) (payload [r]));
          cbn [snd calls set_console set_currentBatch set_currentBatchSize
               Batcher.counted]; rewrite ?Hcur; reflexivity. }
      split.
      { intros Hc. rewrite flush_eq, sendBatch_nonempty, Hcur, Hc by assumption.
        reflexivity. }
      intros r'.
      assert (Hgt : gt (currentBatchSize st1 + (record_bytes r' + 1)) maxSizeBytes
                    = true).
      { apply (gt_mono (record_bytes r)); [|exact Hr].
        rewrite Hsize, batch_bytes_single. pose proof (record_bytes_pos r'). lia. }
      split.
      * rewrite addProduct_eq. cbv zeta.
        pose proof Hne as Hpos. apply len_pos in Hpos. rewrite Hpos, Hgt.
        cbn [andb]. rewrite sendBatch_nonempty, Hcur by assumption.
        destruct (call externalService (calls st1) (payload [r]));
          cbn [snd calls set_currentBatch set_currentBatchSize Batcher.counted];
          rewrite ?Hcur; reflexivity.
      * intros Hc. rewrite addProduct_overflow; try assumption.
        -- cbn [fst snd currentBatch set_currentBatch set_currentBatchSize]. auto.
        -- now rewrite Hcur.
    + intros e Hb Hcall.
      assert (Hgt : gt (currentBatchSize (session cs initial) + (record_bytes r + 1))
                      maxSizeBytes = true).
      { apply (gt_mono (record_bytes r)); [|exact Hr].
        pose proof (inv_size _ _ _ H) as Hsz. unfold size_tracked in Hsz.
        rewrite Hsz. pose proof (exact_size_nonneg (currentBatch (session cs initial))).
        lia. }
      rewrite addProduct_eq. cbv zeta.
      pose proof Hb as Hpos. apply len_pos in Hpos. rewrite Hpos, Hgt.
      cbn [andb]. rewrite sendBatch_nonempty, Hcall by assumption.
      cbn [fst snd Batcher.counted currentBatch calls]. auto.
  - exists bs. split; [apply H|].
    pose proof (inv_batches _ _ _ H) as Hbs.
    eapply Forall_impl; [|exact Hbs].
    intros b [Hne Hb] Hgt.
    destruct b as [|x [|y b]].
    + congruence.
    + exists x. split; [reflexivity|]. now rewrite <- batch_bytes_single.
    + rewrite Hb in Hgt by (cbn [length]; lia). discriminate.
Qed.


(** C6 (no empty emission).  Whatever calls are made, the service never
    receives the serialization of the empty array; in particular calls that
    bring no record, such as a [flush] on a fresh batcher, invoke the service
    not at all. *)
Theorem no_empty_emission (cs : list Call) :
  ~ In (lit "[]") (calls (session cs initial)) /\
  (records cs = [] -> calls (session cs initial) = []) /\
  calls (snd (flush initial)) = [].
Proof.
  split; [|split].
  - destruct (session_Inv cs initial [] Inv_initial) as (bs & H).
    rewrite (inv_calls _ _ _ H). intros Hin.
    apply in_map_iff in Hin as (b & Hp & Hin).
    pose proof (inv_batches _ _ _ H) as Hbs.
    rewrite Forall_forall in Hbs. destruct (Hbs b Hin) as [Hb _].
    exact (payload_not_brackets b Hb Hp).
  - intros Hr. now destruct (idle_session cs initial eq_refl Hr) as [-> _].
  - now rewrite flush_eq, sendBatch_empty.
Qed.

(** C7 (idempotent flush), as the code has it.  On an empty accumulator
    [flush] invokes the service not at all, changes none of the variables
    and prints the summary, which stays the same however often it is
    repeated.  Hence after a [flush] that returned, a second [flush] makes no
    invocation and prints the same summary lines again; the two calls
    together hand over at most one batch.  After a [flush] that threw, the
    batch is still there, and a second [flush] hands the same payload to the
    service a second time. *)
Theorem flush_twice (st st1 : State) :
  (currentBatch st = [] ->
   flush st = (Normal tt, set_console (console st ++ summary_lines st) st) /\
   summary_lines (snd (flush st)) = summary_lines st) /\
  (flush st = (Normal tt, st1) ->
   currentBatch st1 = [] /\
   flush st1 = (Normal tt, set_console (console st1 ++ summary_lines st1) st1) /\
   calls (snd (flush st1)) = calls st1 /\
   len (calls st1) <= len (calls st) + 1 /\
   console st1 = console (snd (sendBatch st)) ++ summary_lines st1) /\
  (forall e : JSError,
     flush st = (Throw e, st1) ->
     currentBatch st <> [] /\
     call externalService (calls st) (payload (currentBatch st)) = Some e /\
     currentBatch st1 = currentBatch st /\
     calls st1 = calls st ++ [payload (currentBatch st)] /\
     calls (snd (flush st1))
     = calls st ++ [payload (currentBatch st); payload (currentBatch st)]).
Proof.
  assert (Hidle : forall s : State,
             currentBatch s = [] ->
             flush s = (Normal tt, set_console (console s ++ summary_lines s) s)).
  { intros s Hs. now rewrite flush_eq, sendBatch_empty. }
  split; [|split].
  - intros Hcur. rewrite (Hidle st Hcur). split; reflexivity.
  - intros H1. pose proof (flush_normal_empty st st1 H1) as Hcur.
    rewrite (Hidle st1 Hcur). cbn [snd calls set_console].
    split; [exact Hcur|]. split; [reflexivity|]. split; [reflexivity|].
    rewrite flush_eq in H1. destruct (currentBatch st) as [|x b] eqn:E.
    + rewrite sendBatch_empty in * by assumption. injection H1 as <-.
      cbn [snd calls set_console console]. split; [lia|reflexivity].
    + rewrite sendBatch_nonempty in * by congruence.
      destruct (call externalService _ _); [discriminate|]. injection H1 as <-.
      cbn [snd calls set_console set_currentBatch set_currentBatchSize
           Batcher.counted console].
      rewrite len_snoc. split; [lia|reflexivity].
  - intros e H1. rewrite flush_eq in H1.
    destruct (currentBatch st) as [|x b] eqn:E.
    + rewrite sendBatch_empty in H1 by assumption. discriminate.
    + assert (Hb : currentBatch st <> []) by congruence.
      rewrite sendBatch_nonempty in H1 by assumption. rewrite E in H1.
      destruct (call externalService (calls st) (payload (x :: b))) as [e0|] eqn:Hcall;
        [|discriminate].
      injection H1 as <- <-.
      split; [discriminate|]. split; [reflexivity|].
      cbn [Batcher.counted currentBatch calls]. rewrite E.
      split; [reflexivity|]. split; [reflexivity|].
      rewrite flush_eq, sendBatch_nonempty
        by (cbn [Batcher.counted currentBatch]; congruence).
      cbn [Batcher.counted currentBatch calls]. rewrite E.
      destruct (call externalService (calls st ++ _) _);
        cbn [snd calls currentBatch set_console set_currentBatch
             set_currentBatchSize Batcher.counted];
        rewrite ?E, <- app_assoc; reflexivity.
Qed.

Lemma ltb_agree (a b c d : Z) : (a < b <-> c < d) -> (a <? b) = (c <? d).
Proof.
  intros H. destruct (Z.ltb_spec a b), (Z.ltb_spec c d); tauto || lia.
Qed.

(** With the limits of the tests, the product [maxSizeBytes * 0.95] and
    95% of the limit have the same integers above them. *)
Lemma threshold_five_MB (n : Z) :
  gt n (mul (Batcher.maxSizeBytes Samples.five_MB) lit_0_95)
  = Observers.above_95_percent n (Batcher.maxSizeBytes Samples.five_MB).
Proof.
  replace (mul (Batcher.maxSizeBytes Samples.five_MB) lit_0_95)
    with (S754_finite false 5348024557502464 (-30)) by (vm_compute; reflexivity).
  replace (Batcher.maxSizeBytes Samples.five_MB)
    with (S754_finite false 5629499534213120 (-30)) by (vm_compute; reflexivity).
  cbv [gt Observers.above_95_percent].
  change (0 <=? -30) with false. cbv iota.
  change (2 ^ (- -30)) with 1073741824. apply ltb_agree. lia.
Qed.

Lemma threshold_one_KB (n : Z) :
  gt n (mul (Batcher.maxSizeBytes Samples.one_KB) lit_0_95)
  = Observers.above_95_percent n (Batcher.maxSizeBytes Samples.one_KB).
Proof.
  replace (mul (Batcher.maxSizeBytes Samples.one_KB) lit_0_95)
    with (S754_finite false 8762203435012037 (-43)) by (vm_compute; reflexivity).
  replace (Batcher.maxSizeBytes Samples.one_KB)
    with (S754_finite false 4611686018427388 (-42)) by (vm_compute; reflexivity).
  cbv [gt Observers.above_95_percent].
  change (0 <=? -43) with false. change (0 <=? -42) with false. cbv iota.
  change (2 ^ (- -43)) with 8796093022208.
  change (2 ^ (- -42)) with 4398046511104. apply ltb_agree. lia.
Qed.

Lemma threshold_ten_KB (n : Z) :
  gt n (mul (Batcher.maxSizeBytes Samples.ten_KB) lit_0_95)
  = Observers.above_95_percent n (Batcher.maxSizeBytes Samples.ten_KB).
Proof.
  replace (mul (Batcher.maxSizeBytes Samples.ten_KB) lit_0_95)
    with (S754_finite false 5476377146882523 (-39)) by (vm_compute; reflexivity).
  replace (Batcher.maxSizeBytes Samples.ten_KB)
    with (S754_finite false 5764607523034235 (-39)) by (vm_compute; reflexivity).
  cbv [gt Observers.above_95_percent].
  change (0 <=? -39) with false. cbv iota.
  change (2 ^ (- -39)) with 549755813888. apply ltb_agree. lia.
Qed.

(** C8 (full and partial batches), as the code has it.  A batch handed to
    the service counts as full exactly when its serialized size is greater
    than the binary64 product [maxSizeBytes * 0.95], where [0.95] is the
    binary64 number nearest to 95/100; the counters of full batches are the
    number and the bytes of such payloads.  With the limits of the tests (5,
    0.001 and 0.01 megabytes) that is the same, for every size, as being
    greater than 95% of the limit.  [printSummary] derives the partial
    batches as [totalBatchesSent - fullBatchCount] and their bytes as
    [totalSizeProcessed - totalFullBatchesSize], changes nothing but the
    console, and with no batch sent prints the totals and the sentence that
    says so, with no average. *)
Theorem full_and_partial (cs : list Call) (st0 : State) :
  let st := session cs initial in
  (currentBatch st0 <> [] ->
   fullBatchCount (snd (sendBatch st0))
   = fullBatchCount st0
     + (if gt (batch_bytes (currentBatch st0)) (mul maxSizeBytes lit_0_95)
        then 1 else 0) /\
   totalFullBatchesSize (snd (sendBatch st0))
   = totalFullBatchesSize st0
     + (if gt (batch_bytes (currentBatch st0)) (mul maxSizeBytes lit_0_95)
        then batch_bytes (currentBatch st0) else 0)) /\
  fullBatchCount st
  = len (filter (fun p => gt (Buffer_byteLength p) (mul maxSizeBytes lit_0_95))
           (calls st)) /\
  totalFullBatchesSize st
  = sum_bytes (filter (fun p => gt (Buffer_byteLength p) (mul maxSizeBytes lit_0_95))
                 (calls st)) /\
  totalBatchesSent st = len (calls st) /\
  totalSizeProcessed st = sum_bytes (calls st) /\
  Batcher.printSummary st0
  = (Normal tt, set_console (console st0 ++ summary_lines st0) st0) /\
  (forall count bytes : Z,
     In (LogPartialBatches count bytes) (summary_lines st0) <->
     0 < totalBatchesSent st0 /\
     0 < totalBatchesSent st0 - fullBatchCount st0 /\
     count = totalBatchesSent st0 - fullBatchCount st0 /\
     bytes = totalSizeProcessed st0 - totalFullBatchesSize st0) /\
  (totalBatchesSent st0 = 0 ->
   summary_lines st0
   = [LogText (10 :: rule); LogText (lit "PROCESSING SUMMARY"); LogText rule;
      LogTotalProducts (totalProductsProcessed st0);
      LogTotalBatches 0;
      LogTotalData (totalSizeProcessed st0);
      LogText (lit "No batches were sent.");
      LogText rule]) /\
  lit_0_95 = SFdiv prec emax (of_Z 95) (of_Z 100) /\
  (forall n : Z,
     gt n (mul (Batcher.maxSizeBytes Samples.five_MB) lit_0_95)
     = Observers.above_95_percent n (Batcher.maxSizeBytes Samples.five_MB)) /\
  (forall n : Z,
     gt n (mul (Batcher.maxSizeBytes Samples.one_KB) lit_0_95)
     = Observers.above_95_percent n (Batcher.maxSizeBytes Samples.one_KB)) /\
  (forall n : Z,
     gt n (mul (Batcher.maxSizeBytes Samples.ten_KB) lit_0_95)
     = Observers.above_95_percent n (Batcher.maxSizeBytes Samples.ten_KB)).
Proof.
  intros st. subst st.
  destruct (session_Inv cs initial [] Inv_initial) as (bs & H).
  split.
  { intros Hb. rewrite sendBatch_nonempty by assumption.
    destruct (call externalService _ _);
      cbn [snd Batcher.counted set_currentBatch set_currentBatchSize
           fullBatchCount totalFullBatchesSize];
      unfold batch_bytes, Batcher.is_full; destruct (gt _ _); split; lia. }
  split; [apply H|]. split; [apply H|]. split; [apply H|]. split; [apply H|].
  split; [apply printSummary_eq|]. split.
  - intros count bytes. unfold summary_lines.
    destruct (totalBatchesSent st0 >? 0) eqn:E1;
      destruct (fullBatchCount st0 >? 0) eqn:E2;
      destruct (totalBatchesSent st0 - fullBatchCount st0 >? 0) eqn:E3;
      cbn [app In]; rewrite ?Z.gtb_ltb in *;
      rewrite ?Z.ltb_lt, ?Z.ltb_ge in *;
      (split; [intros Hin; repeat (destruct Hin as [Hin|Hin]; try discriminate);
               try contradiction; try (injection Hin as <- <-; repeat split; lia)
              | intros (? & ? & -> & ->); try lia; auto 20]).
  - split; [intros Hz; unfold summary_lines; rewrite Hz; reflexivity|].
    split; [vm_compute; reflexivity|].
    split; [exact threshold_five_MB|].
    split; [exact threshold_one_KB | exact threshold_ten_KB].
Qed.

(** C9 (the tracked size is exact).  The stored size is 0 for an empty
    batch and the exact UTF-8 byte length of the serialized batch otherwise:
    this holds initially, every call keeps it, so it holds in every state
    a batcher can be in.  The incremental path adds no drift: appending a
    record to a non-empty batch lengthens the serialization by the record's
    own bytes and one comma, which is the estimate. *)
Theorem tracked_size_exact :
  size_tracked initial /\
  (forall (c : Call) (st : State),
     size_tracked st -> size_tracked (snd (invoke c st))) /\
  (forall cs : list Call,
     let st := session cs initial in
     (currentBatch st = [] -> currentBatchSize st = 0) /\
     (currentBatch st <> [] ->
      currentBatchSize st
      = Buffer_byteLength (JSON_stringify (JArray (currentBatch st))))) /\
  (forall (b : list json) (p : json),
     b <> [] ->
     Buffer_byteLength (JSON_stringify (JArray (b ++ [p])))
     = Buffer_byteLength (JSON_stringify (JArray b))
       + (Buffer_byteLength (JSON_stringify p) + 1)).
Proof.
  split; [reflexivity|]. split; [exact size_tracked_invoke|]. split.
  - intros cs st. subst st.
    destruct (session_Inv cs initial [] Inv_initial) as (bs & H).
    pose proof (inv_size _ _ _ H) as Hs. unfold size_tracked in Hs.
    split; intros Hb.
    + now rewrite Hs, Hb.
    + now rewrite Hs, exact_size_nonempty.
  - exact batch_bytes_snoc.
Qed.

(** C10 (statistics).  In every state a batcher can be in, the full
    batches are at most the batches sent, in number and in bytes, so the
    derived partial figures are not negative; the count of records is the sum
    of the lengths of the batches handed to the service, and the records of
    the current batch are not in it: after calls that returned, the count
    and the current batch together make up the records fed in. *)
Theorem statistics_invariant (cs : list Call) :
  let st := session cs initial in
  stats_ordered initial /\
  (forall (c : Call) (st0 : State),
     stats_ordered st0 -> stats_ordered (snd (invoke c st0))) /\
  0 <= fullBatchCount st <= totalBatchesSent st /\
  0 <= totalFullBatchesSize st <= totalSizeProcessed st /\
  (exists bs : list (list json),
     calls st = map payload bs /\ totalProductsProcessed st = sum_len bs) /\
  (forall st' : State,
     script cs initial = (Normal tt, st') ->
     totalProductsProcessed st' + len (currentBatch st') = len (records cs)).
Proof.
  intros st. subst st.
  destruct (session_Inv cs initial [] Inv_initial) as (bs & H).
  split; [unfold stats_ordered; cbn; lia|].
  split; [exact stats_ordered_invoke|].
  rewrite (inv_full_count _ _ _ H), (inv_sent _ _ _ H),
    (inv_full_bytes _ _ _ H), (inv_bytes _ _ _ H).
  split; [apply len_filter_le|]. split; [apply sum_bytes_filter_le|].
  split; [exists bs; split; apply H|].
  intros st' Hrun.
  destruct (script_step cs initial [] Inv_initial) as (bs' & H' & Hn).
  rewrite Hrun in H', Hn. cbn [fst snd] in H', Hn. specialize (Hn eq_refl).
  cbn [List.concat initial currentBatch app] in Hn.
  rewrite (inv_products _ _ _ H'), sum_len_concat, <- Hn.
  unfold len. rewrite length_app. lia.
Qed.

End Closure.

(** *** The properties at concrete batchers *)

Import Samples.

Lemma size_bound_general_witness :
  is_nan (maxSizeBytes five_MB) = false /\
  exists bs : list (list json),
    calls (session five_MB reliable (two_products ++ [Flush]) initial)
    = map payload bs /\
    Forall (fun b => (1 < length b)%nat ->
                     le (Buffer_byteLength (payload b)) (maxSizeBytes five_MB) = true)
      bs.
Proof.
  split; [vm_compute; reflexivity|].
  apply (size_bound_general five_MB reliable (two_products ++ [Flush])).
  vm_compute; reflexivity.
Defined.

(** C2 as the design document states it fails: with the limit at 1048.576
    bytes and a service that throws on its first invocation, three records
    are fed in by [addProduct], the caller going on after the exception, and
    the batcher is flushed.  The third record is lost and the batch of the
    first two is handed over twice: the batches received count four records,
    not three, and no well-formed batches that serialize to the payloads
    received concatenate to the records fed in. *)
Lemma dropped_record_counterexample :
  records three_records = [product_1; product_2; oversized_text] /\
  calls (session one_KB Observers.flaky (three_records ++ [Flush]) initial)
  = map payload [[product_1; product_2]; [product_1; product_2]] /\
  totalProductsProcessed
    (session one_KB Observers.flaky (three_records ++ [Flush]) initial) = 4 /\
  (forall bs : list (list json),
     Forall (Forall Decode.wf_json) bs ->
     calls (session one_KB Observers.flaky (three_records ++ [Flush]) initial)
     = map payload bs ->
     List.concat bs <> records three_records /\
     sum_len bs <> len (records three_records)).
Proof.
  assert (Hcalls :
            calls (session one_KB Observers.flaky (three_records ++ [Flush]) initial)
            = map payload [[product_1; product_2]; [product_1; product_2]])
    by (vm_compute; reflexivity).
  split; [reflexivity|]. split; [exact Hcalls|]. split; [vm_compute; reflexivity|].
  intros bs Hwf E. rewrite Hcalls in E.
  assert (Hbs : bs = [[product_1; product_2]; [product_1; product_2]]).
  { symmetry. apply DecodeFacts.payloads_inj; [|exact Hwf|exact E].
    assert (Hw : Forall Decode.wf_json [product_1; product_2])
      by (apply DecodeFacts.wf_records; vm_compute; reflexivity).
    exact (Forall_cons _ Hw (Forall_cons _ Hw (Forall_nil _))). }
  subst bs. split.
  - intros Habs. apply (f_equal (@length json)) in Habs. discriminate Habs.
  - vm_compute. discriminate.
Qed.

Lemma order_preserved_witness :
  script five_MB reliable (two_products ++ [Flush]) initial = (Normal tt, flushed) /\
  Forall Decode.wf_json (records two_products) /\
  exists bs : list (list json),
    calls flushed = map payload bs /\
    List.concat bs = records two_products /\
    sum_len bs = len (records two_products) /\
    totalProductsProcessed flushed = len (records two_products) /\
    (forall bs' : list (list json),
       Forall (Forall Decode.wf_json) bs' ->
       calls flushed = map payload bs' ->
       bs' = bs /\ List.concat bs' = records two_products /\
       sum_len bs' = len (records two_products)).
Proof.
  assert (H1 : script five_MB reliable (two_products ++ [Flush]) initial
               = (Normal tt, flushed)) by (vm_compute; reflexivity).
  assert (H2 : Forall Decode.wf_json (records two_products))
    by (apply DecodeFacts.wf_records; vm_compute; reflexivity).
  destruct (order_preserved five_MB reliable two_products flushed H1)
    as (bs & Hc & Hn & Hs & Ht & Hu).
  split; [exact H1|]. split; [exact H2|]. exists bs.
  exact (conj Hc (conj Hn (conj Hs (conj Ht (Hu H2))))).
Defined.

(** C3 as the design document states it fails: over a service that throws,
    [flush] on a batcher holding one record throws, the batch is counted as
    sent, and the current batch is still that record, not the empty batch. *)
Lemma reset_before_call_counterexample :
  fst (flush five_MB failing pending_one) = Throw service_down /\
  totalBatchesSent (snd (flush five_MB failing pending_one)) = 1 /\
  currentBatch (snd (flush five_MB failing pending_one)) = [product_1] /\
  currentBatch (snd (flush five_MB failing pending_one)) <> [].
Proof. vm_compute. repeat split; discriminate. Qed.

Lemma service_failure_witness :
  currentBatch pending_one <> [] /\
  call failing (calls pending_one) (payload (currentBatch pending_one))
  = Some service_down /\
  flush five_MB failing pending_one
  = (Throw service_down, snd (sendBatch five_MB failing pending_one)) /\
  totalBatchesSent (snd (sendBatch five_MB failing pending_one))
  = totalBatchesSent pending_one + 1 /\
  currentBatch (snd (sendBatch five_MB failing pending_one))
  = currentBatch pending_one.
Proof.
  assert (H1 : currentBatch pending_one <> []) by (vm_compute; discriminate).
  assert (H2 : call failing (calls pending_one) (payload (currentBatch pending_one))
               = Some service_down) by reflexivity.
  pose proof (service_failure five_MB failing pending_one service_down H1 H2) as H.
  cbv zeta in H.
  destruct H as (_ & Hf & _ & _ & _ & Hn & _ & _ & _ & Hc & _).
  exact (conj H1 (conj H2 (conj Hf (conj Hn Hc)))).
Defined.

(** C4 as the design document states it fails: with the limit at 1048.576
    bytes, a record of 1047 serialized bytes does not exceed the limit, and
    yet the batch it makes up, 1049 bytes with the brackets, is handed to
    the service and exceeds it.  And over a service that throws, a record
    that does exceed the limit is not put in a batch: [addProduct] throws and
    the current batch is still the record that was there. *)
Lemma near_limit_record_counterexample :
  gt (record_bytes long_text) (maxSizeBytes one_KB) = false /\
  calls (snd (script one_KB reliable [AddProduct long_text; Flush] initial))
  = [payload [long_text]] /\
  gt (Buffer_byteLength (payload [long_text])) (maxSizeBytes one_KB) = true /\
  gt (record_bytes oversized_text) (maxSizeBytes one_KB) = true /\
  fst (addProduct one_KB failing oversized_text
         (session one_KB failing [AddProduct long_text] initial))
  = Throw service_down /\
  currentBatch (snd (addProduct one_KB failing oversized_text
                       (session one_KB failing [AddProduct long_text] initial)))
  = [long_text].
Proof. vm_compute. repeat split. Qed.

Lemma oversized_record_witness :
  gt (record_bytes oversized_text) (maxSizeBytes one_KB) = true /\
  (currentBatch (session one_KB reliable [AddProduct long_text] initial) = [] \/
   call reliable (calls (session one_KB reliable [AddProduct long_text] initial))
     (payload (currentBatch (session one_KB reliable [AddProduct long_text] initial)))
   = None) /\
  currentBatch (session one_KB failing [AddProduct long_text] initial) <> [] /\
  call failing (calls (session one_KB failing [AddProduct long_text] initial))
    (payload (currentBatch (session one_KB failing [AddProduct long_text] initial)))
  = Some service_down /\
  gt (batch_bytes [oversized_text]) (maxSizeBytes one_KB) = true /\
  currentBatch (snd (addProduct one_KB reliable oversized_text
                       (session one_KB reliable [AddProduct long_text] initial)))
  = [oversized_text] /\
  calls (snd (flush one_KB reliable
                (snd (addProduct one_KB reliable oversized_text
                        (session one_KB reliable [AddProduct long_text] initial)))))
  = calls (snd (addProduct one_KB reliable oversized_text
                  (session one_KB reliable [AddProduct long_text] initial)))
    ++ [payload [oversized_text]] /\
  fst (addProduct one_KB failing oversized_text
         (session one_KB failing [AddProduct long_text] initial))
  = Throw service_down /\
  currentBatch (snd (addProduct one_KB failing oversized_text
                       (session one_KB failing [AddProduct long_text] initial)))
  = currentBatch (session one_KB failing [AddProduct long_text] initial).
Proof.
  assert (H1 : gt (record_bytes oversized_text) (maxSizeBytes one_KB) = true)
    by (vm_compute; reflexivity).
  assert (H2 : currentBatch (session one_KB reliable [AddProduct long_text] initial)
               = [] \/
               call reliable
                 (calls (session one_KB reliable [AddProduct long_text] initial))
                 (payload (currentBatch
                             (session one_KB reliable [AddProduct long_text] initial)))
               = None) by (right; reflexivity).
  assert (H3 : currentBatch (session one_KB failing [AddProduct long_text] initial)
               <> []) by (vm_compute; discriminate).
  assert (H4 : call failing
                 (calls (session one_KB failing [AddProduct long_text] initial))
                 (payload (currentBatch
                             (session one_KB failing [AddProduct long_text] initial)))
               = Some service_down) by reflexivity.
  pose proof (oversized_record one_KB reliable [AddProduct long_text] oversized_text)
    as Hr.
  pose proof (oversized_record one_KB failing [AddProduct long_text] oversized_text)
    as Hf.
  cbv zeta in Hr, Hf. destruct Hr as [Hr _]. destruct Hf as [Hf _].
  destruct (Hr H1) as (Hbig & Hput & _). destruct (Hf H1) as (_ & _ & Hthrow).
  destruct (Hput H2) as (_ & Hcur & Hcalls & _).
  destruct (Hthrow service_down H3 H4) as (Ht & Hkeep & _).
  exact (conj H1 (conj H2 (conj H3 (conj H4 (conj Hbig (conj Hcur
           (conj Hcalls (conj Ht Hkeep)))))))).
Defined.


Lemma no_empty_emission_witness :
  records [Flush; AddProducts []; Flush] = [] /\
  calls (session five_MB reliable [Flush; AddProducts []; Flush] initial) = [] /\
  ~ In (lit "[]") (calls (session five_MB reliable (two_products ++ [Flush]) initial)).
Proof.
  assert (H1 : records [Flush; AddProducts []; Flush] = []) by reflexivity.
  destruct (no_empty_emission five_MB reliable [Flush; AddProducts []; Flush])
    as (_ & Hidle & _).
  destruct (no_empty_emission five_MB reliable (two_products ++ [Flush]))
    as (Hnever & _).
  exact (conj H1 (conj (Hidle H1) Hnever)).
Defined.

(** C7 as the design document states it fails: over a service that
    throws, two [flush] calls in a row on a batcher holding one record hand
    the batch over twice. *)
Lemma flush_retry_counterexample :
  calls pending_one = [] /\
  fst (flush five_MB failing pending_one) = Throw service_down /\
  calls (snd (flush five_MB failing pending_one)) = [payload [product_1]] /\
  calls (snd (flush five_MB failing (snd (flush five_MB failing pending_one))))
  = [payload [product_1]; payload [product_1]].
Proof. vm_compute. repeat split. Qed.

Lemma flush_twice_witness :
  currentBatch flushed = [] /\
  flush five_MB reliable pending_two = (Normal tt, flushed) /\
  flush five_MB failing pending_one
  = (Throw service_down, snd (flush five_MB failing pending_one)) /\
  flush five_MB reliable flushed
  = (Normal tt, set_console (console flushed ++ summary_lines flushed) flushed) /\
  len (calls flushed) <= len (calls pending_two) + 1 /\
  calls (snd (flush five_MB reliable flushed)) = calls flushed /\
  calls (snd (flush five_MB failing (snd (flush five_MB failing pending_one))))
  = calls pending_one
    ++ [payload (currentBatch pending_one); payload (currentBatch pending_one)].
Proof.
  assert (H0 : currentBatch flushed = []) by reflexivity.
  assert (H1 : flush five_MB reliable pending_two = (Normal tt, flushed))
    by (vm_compute; reflexivity).
  assert (H2 : flush five_MB failing pending_one
               = (Throw service_down, snd (flush five_MB failing pending_one)))
    by (vm_compute; reflexivity).
  destruct (flush_twice five_MB reliable flushed flushed) as ((Hidle & _) & _);
    [exact H0|].
  destruct (flush_twice five_MB reliable pending_two flushed) as (_ & H & _).
  destruct (flush_twice five_MB failing pending_one
              (snd (flush five_MB failing pending_one))) as (_ & _ & Hf).
  destruct (H H1) as (_ & _ & Hc & Hn & _).
  destruct (Hf service_down H2) as (_ & _ & _ & _ & Hagain).
  exact (conj H0 (conj H1 (conj H2 (conj Hidle (conj Hn (conj Hc Hagain)))))).
Defined.

(** C8 as the design document states it fails: with the limit at
    13.68421052631579 bytes, a batch of 13 bytes is above 95% of the limit
    (13.000000000000000...), but the product of the limit and [0.95] is the
    number 13, which 13 does not exceed: the batch is counted as partial. *)
Lemma ninety_five_percent_counterexample :
  batch_bytes [short_text] = 13 /\
  Observers.above_95_percent 13 (maxSizeBytes tight_MB) = true /\
  gt 13 (mul (maxSizeBytes tight_MB) lit_0_95) = false /\
  calls (session tight_MB reliable [AddProduct short_text; Flush] initial)
  = [payload [short_text]] /\
  fullBatchCount (session tight_MB reliable [AddProduct short_text; Flush] initial)
  = 0 /\
  In (LogPartialBatches 1 13)
    (console (session tight_MB reliable [AddProduct short_text; Flush] initial)).
Proof. vm_compute. repeat split. auto 20. Qed.

Lemma full_and_partial_witness :
  currentBatch pending_full <> [] /\
  batch_bytes (currentBatch pending_full) = 1037 /\
  gt 1037 (mul (maxSizeBytes one_KB) lit_0_95) = true /\
  Observers.above_95_percent 1037 (maxSizeBytes one_KB) = true /\
  fullBatchCount pending_full = 0 /\
  fullBatchCount (snd (sendBatch one_KB reliable pending_full)) = 1 /\
  totalFullBatchesSize (snd (sendBatch one_KB reliable pending_full)) = 1037 /\
  In (LogPartialBatches 1 62) (summary_lines pending_full) /\
  fullBatchCount (session one_KB reliable (mixed_feed ++ [Flush]) initial)
  = len (filter (fun p => gt (Buffer_byteLength p) (mul (maxSizeBytes one_KB) lit_0_95))
           (calls (session one_KB reliable (mixed_feed ++ [Flush]) initial))) /\
  fullBatchCount (session one_KB reliable (mixed_feed ++ [Flush]) initial) = 1 /\
  totalBatchesSent (session one_KB reliable (mixed_feed ++ [Flush]) initial) = 2 /\
  totalBatchesSent initial = 0 /\
  In (LogText (lit "No batches were sent.")) (summary_lines initial).
Proof.
  assert (H1 : currentBatch pending_full <> []) by (vm_compute; discriminate).
  assert (H2 : batch_bytes (currentBatch pending_full) = 1037)
    by (vm_compute; reflexivity).
  assert (H3 : gt 1037 (mul (maxSizeBytes one_KB) lit_0_95) = true)
    by (vm_compute; reflexivity).
  assert (H4 : fullBatchCount pending_full = 0) by (vm_compute; reflexivity).
  assert (H5 : totalFullBatchesSize pending_full = 0) by (vm_compute; reflexivity).
  assert (H6 : 0 < totalBatchesSent pending_full /\
               0 < totalBatchesSent pending_full - fullBatchCount pending_full /\
               1 = totalBatchesSent pending_full - fullBatchCount pending_full /\
               62 = totalSizeProcessed pending_full - totalFullBatchesSize pending_full)
    by (vm_compute; repeat split).
  assert (H7 : totalBatchesSent initial = 0) by reflexivity.
  pose proof (full_and_partial one_KB reliable (mixed_feed ++ [Flush]) pending_full)
    as H.
  pose proof (full_and_partial one_KB reliable [] initial) as H'.
  cbv zeta in H, H'.
  destruct H as (Hs & Hcount & _ & _ & _ & _ & Hpart & _ & _ & _ & Hone & _).
  destruct H' as (_ & _ & _ & _ & _ & _ & _ & Hz & _).
  destruct (Hs H1) as [Hf Hb]. rewrite H2, H3, H4 in Hf. rewrite H2, H3, H5 in Hb.
  split; [exact H1|]. split; [exact H2|]. split; [exact H3|].
  split; [now rewrite <- Hone|]. split; [exact H4|]. split; [exact Hf|].
  split; [exact Hb|]. split; [apply Hpart; exact H6|]. split; [exact Hcount|].
  split; [vm_compute; reflexivity|]. split; [vm_compute; reflexivity|].
  split; [exact H7|]. rewrite (Hz H7). cbn [In]. do 6 right. left. reflexivity.
Defined.

Lemma tracked_size_exact_witness :
  currentBatch pending_two <> [] /\
  currentBatchSize pending_two
  = Buffer_byteLength (JSON_stringify (JArray (currentBatch pending_two))) /\
  currentBatchSize (session five_MB reliable (two_products ++ [Flush]) initial) = 0 /\
  size_tracked (snd (invoke five_MB reliable (AddProduct product_1) pending_two)) /\
  Buffer_byteLength (JSON_stringify (JArray ([product_1] ++ [product_2])))
  = Buffer_byteLength (JSON_stringify (JArray [product_1]))
    + (Buffer_byteLength (JSON_stringify product_2) + 1).
Proof.
  assert (H1 : currentBatch pending_two <> []) by (vm_compute; discriminate).
  assert (H2 : [product_1] <> []) by discriminate.
  assert (H3 : currentBatch (session five_MB reliable (two_products ++ [Flush]) initial)
               = []) by (vm_compute; reflexivity).
  destruct (tracked_size_exact five_MB reliable) as (_ & Hkeep & Hreach & Hsnoc).
  destruct (Hreach two_products) as [_ Hne].
  destruct (Hreach (two_products ++ [Flush])) as [Hempty _].
  split; [exact H1|]. split; [exact (Hne H1)|].
  split; [exact (Hempty H3)|].
  split; [apply Hkeep; vm_compute; reflexivity|].
  exact (Hsnoc [product_1] product_2 H2).
Defined.

Lemma statistics_invariant_witness :
  script five_MB reliable two_products initial = (Normal tt, pending_two) /\
  totalProductsProcessed pending_two + len (currentBatch pending_two)
  = len (records two_products) /\
  totalProductsProcessed pending_two = 0 /\
  stats_ordered pending_two /\
  stats_ordered (snd (invoke five_MB reliable Flush pending_two)).
Proof.
  assert (H1 : script five_MB reliable two_products initial = (Normal tt, pending_two))
    by (vm_compute; reflexivity).
  assert (H2 : stats_ordered pending_two) by (vm_compute; repeat split; discriminate).
  pose proof (statistics_invariant five_MB reliable two_products) as H.
  cbv zeta in H. destruct H as (_ & Hkeep & _ & _ & _ & Hp).
  split; [exact H1|]. split; [exact (Hp pending_two H1)|]. split; [reflexivity|].
  split; [exact H2 | exact (Hkeep Flush pending_two H2)].
Defined.

(** *** The constants of the code are the numbers they denote *)

Example ONE_MEGA_BYTE_value : ONE_MEGA_BYTE = of_Z 1048576.
Proof. reflexivity. Qed.

Example lit_0_95_value : lit_0_95 = SFdiv prec emax (of_Z 95) (of_Z 100).
Proof. vm_compute. reflexivity. Qed.

Example five_MB_limit : maxSizeBytes Samples.five_MB = of_Z 5242880.
Proof. vm_compute. reflexivity. Qed.

Example five_MB_threshold :
  mul (maxSizeBytes Samples.five_MB) lit_0_95 = of_Z 4980736.
Proof. vm_compute. reflexivity. Qed.

Example one_KB_value : Samples.one_KB = SFdiv prec emax (of_Z 1) (of_Z 1000).
Proof. vm_compute. reflexivity. Qed.

(** 1048.576 lies between 1048 and 1049. *)
Example one_KB_limit :
  gt 1048 (maxSizeBytes Samples.one_KB) = false /\
  gt 1049 (maxSizeBytes Samples.one_KB) = true.
Proof. vm_compute. split; reflexivity. Qed.

(** *** The scenarios of the design document *)

(** Scenario A: limit 5 MB, two small records: one invocation of the
    service, with both records in their order. *)
Example scenario_A :
  calls Samples.flushed = [payload [Samples.product_1; Samples.product_2]].
Proof. vm_compute. reflexivity. Qed.

(** Scenario B: limit 0.001 MB, twenty records of more than 100 bytes:
    more than one invocation, twenty records in all. *)
Example scenario_B :
  let st := snd (script Samples.one_KB Samples.reliable
                   [AddProducts Samples.twenty_products; Flush] initial) in
  map Buffer_byteLength (calls st) = [1037; 1045; 901] /\
  totalProductsProcessed st = 20 /\ fullBatchCount st = 2.
Proof. vm_compute. repeat split. Qed.

(** Scenario C: limit 0.01 MB, a hundred records with descriptions of 200
    bytes: a hundred records in all, every batch within 10485.76 bytes. *)
Example scenario_C :
  let st := snd (script Samples.ten_KB Samples.reliable
                   [AddProducts Samples.hundred_products; Flush] initial) in
  totalProductsProcessed st = 100 /\
  map Buffer_byteLength (calls st) = [10481; 10251; 4251] /\
  forallb (fun p => le (Buffer_byteLength p) (maxSizeBytes Samples.ten_KB)) (calls st)
  = true.
Proof. vm_compute. repeat split. Qed.

(** Scenario D: one record: one invocation with an array of one element. *)
Example scenario_D :
  calls (snd (script Samples.five_MB Samples.reliable
                [AddProduct Samples.product_1; Flush] initial))
  = [payload [Samples.product_1]].
Proof. vm_compute. reflexivity. Qed.

(** Scenario E: no record, [flush]: no invocation, and the summary says
    that no batch was sent. *)
Example scenario_E :
  let st := snd (flush Samples.five_MB Samples.reliable initial) in
  calls st = [] /\ In (LogText (lit "No batches were sent.")) (console st).
Proof. vm_compute. split; [reflexivity | tauto]. Qed.

End BatcherFacts.

(* ====================================================================== *)
(** ** Further properties of the closure *)
(* ====================================================================== *)

Module BatcherLaws.
Import JS JSFacts Batcher BatcherFacts Observers.

Section Closure.

Variable maxSizeMB : number.
Variable externalService : ExternalService.

#[local] Abbreviation maxSizeBytes := (Batcher.maxSizeBytes maxSizeMB).
#[local] Abbreviation sendBatch := (Batcher.sendBatch maxSizeMB externalService).
#[local] Abbreviation addProduct := (Batcher.addProduct maxSizeMB externalService).
#[local] Abbreviation addProducts := (Batcher.addProducts maxSizeMB externalService).
#[local] Abbreviation addProducts_loop := (Batcher.addProducts_loop maxSizeMB externalService).
#[local] Abbreviation flush := (Batcher.flush maxSizeMB externalService).
#[local] Abbreviation invoke := (Batcher.invoke maxSizeMB externalService).
#[local] Abbreviation script := (Batcher.script maxSizeMB externalService).
#[local] Abbreviation session := (Batcher.session maxSizeMB externalService).
#[local] Abbreviation counted := (Batcher.counted maxSizeMB).
#[local] Abbreviation is_full := (Batcher.is_full maxSizeMB).
#[local] Abbreviation Inv := (Batcher.Inv maxSizeMB).
#[local] Abbreviation batch_ok := (Batcher.batch_ok maxSizeMB).
#[local] Abbreviation fits_alone := (Observers.fits_alone maxSizeMB).
#[local] Abbreviation greedy := (Observers.greedy maxSizeMB).
#[local] Abbreviation overflows := (Observers.overflows maxSizeMB).

(** *** The size of a batch *)

Lemma elements_bytes_records (l : list json) :
  elements_bytes l = records_bytes l + Z.max 0 (len l - 1).
Proof.
  induction l as [|x rest IH]; [reflexivity|].
  cbn [elements_bytes records_bytes fold_right].
  fold (records_bytes rest). destruct rest as [|y rest].
  - cbn. lia.
  - rewrite IH. unfold len. cbn [length]. lia.
Qed.

(** X1.  [calculateBatchSize] is the exact UTF-8 size of the serialized
    array for every batch, the empty one included: its early return of 2 is
    what the general path would compute.  The size is two brackets, the
    records, and one comma between neighbours; and it grows, from any batch,
    by exactly what [estimateProductSize] returns for the added record. *)
Theorem calculateBatchSize_exact (l : list json) (p : json) :
  calculateBatchSize l = Buffer_byteLength (JSON_stringify (JArray l)) /\
  calculateBatchSize l = 2 + records_bytes l + Z.max 0 (len l - 1) /\
  calculateBatchSize (l ++ [p])
  = calculateBatchSize l + (record_bytes p + if len l >? 0 then 1 else 0).
Proof.
  assert (H : forall b : list json, calculateBatchSize b = batch_bytes b).
  { intros [|x b]; [reflexivity|]. now apply calculateBatchSize_nonempty. }
  split; [apply H|]. split.
  - rewrite H, batch_bytes_eq, elements_bytes_records. lia.
  - rewrite !H. destruct l as [|x l].
    + cbn [app]. rewrite batch_bytes_single. change (batch_bytes []) with 2.
      change (len (@nil json) >? 0) with false. cbv iota. lia.
    + rewrite batch_bytes_snoc by discriminate.
      assert (Hl : (len (x :: l) >? 0) = true) by (apply len_pos; discriminate).
      now rewrite Hl.
Qed.

(** *** Exceptions *)

Lemma sendBatch_throw (st : State) (e : JSError) :
  fst (sendBatch st) = Throw e ->
  currentBatch st <> [] /\
  call externalService (calls st) (payload (currentBatch st)) = Some e /\
  snd (sendBatch st) = counted st.
Proof.
  destruct (currentBatch st) as [|x b] eqn:E.
  - rewrite sendBatch_empty by assumption. discriminate.
  - rewrite sendBatch_nonempty by congruence. rewrite E.
    destruct (call externalService _ _) as [e0|]; cbn [fst snd]; [|discriminate].
    intros [= ->]. repeat split. discriminate.
Qed.

Lemma addProduct_throw (p : json) (st : State) (e : JSError) :
  fst (addProduct p st) = Throw e ->
  currentBatch st <> [] /\
  call externalService (calls st) (payload (currentBatch st)) = Some e /\
  snd (addProduct p st) = counted st.
Proof.
  rewrite addProduct_eq. cbv zeta.
  destruct (gt _ maxSizeBytes && _); [|discriminate].
  pose proof (sendBatch_throw st e) as H.
  destruct (sendBatch st) as [[[]|e0] st']; cbn [fst snd] in *; [discriminate|].
  exact H.
Qed.

(** X3.  [addProduct] never hands over the record it is given: when it
    returns, the record is the last one of the current batch, which is
    either the former batch with the record appended and no invocation of
    the service, or the record alone after one invocation on the former
    batch.  When it throws, the service was invoked on the former batch,
    which stays the current batch with its stored size: the record is
    dropped. *)
Theorem addProduct_outcome (p : json) (st : State) :
  let r := addProduct p st in
  (fst r = Normal tt ->
   (currentBatch (snd r) = currentBatch st ++ [p] /\ calls (snd r) = calls st) \/
   (currentBatch st <> [] /\ currentBatch (snd r) = [p] /\
    calls (snd r) = calls st ++ [payload (currentBatch st)])) /\
  (forall e : JSError,
     fst r = Throw e ->
     currentBatch (snd r) = currentBatch st /\
     currentBatchSize (snd r) = currentBatchSize st /\
     calls (snd r) = calls st ++ [payload (currentBatch st)]).
Proof.
  cbv zeta. rewrite addProduct_eq. cbv zeta.
  destruct (gt _ maxSizeBytes && _) eqn:E.
  - apply andb_true_iff in E as [_ E]. apply len_pos in E.
    rewrite sendBatch_nonempty by assumption.
    destruct (call externalService _ _) as [e0|];
      cbn [fst snd currentBatch currentBatchSize calls set_currentBatch
           set_currentBatchSize Batcher.counted].
    + split; [discriminate|]. intros e _. auto.
    + split; [|discriminate]. intros _. right. auto.
  - cbn [fst snd currentBatch currentBatchSize calls set_currentBatch
         set_currentBatchSize].
    split; [intros _; left; auto | discriminate].
Qed.

(** *** Accounting *)

Lemma records_bytes_app (l l' : list json) :
  records_bytes (l ++ l') = records_bytes l + records_bytes l'.
Proof.
  unfold records_bytes. induction l as [|x l IH]; cbn [app fold_right]; lia.
Qed.

Lemma batch_bytes_records (b : list json) :
  b <> [] -> batch_bytes b = records_bytes b + len b + 1.
Proof.
  intros Hb. rewrite batch_bytes_eq, elements_bytes_records.
  destruct b; [congruence|]. unfold len. cbn [length]. lia.
Qed.

Lemma sent_bytes_records (bs : list (list json)) :
  Forall (fun b => b <> []) bs ->
  sum_bytes (map payload bs)
  = records_bytes (List.concat bs) + sum_len bs + len bs /\
  len bs <= sum_len bs.
Proof.
  induction 1 as [|b bs Hb _ IH]; [cbn; lia|].
  cbn [map List.concat sum_bytes sum_len fold_right].
  fold (sum_bytes (map payload bs)). fold (sum_len bs). fold (batch_bytes b).
  rewrite records_bytes_app, batch_bytes_records by assumption.
  destruct IH as [-> IH]. unfold len in *. cbn [length].
  destruct b; [congruence|]. cbn [length]. lia.
Qed.

(** X4.  In every state a batcher can be in, the bytes counted as sent
    are the serialized bytes of the records sent plus one byte for each
    record and one for each batch (the commas and the brackets), and there
    are at least as many records sent as batches. *)
Theorem bytes_accounting (cs : list Call) :
  let st := session cs initial in
  exists bs : list (list json),
    calls st = map payload bs /\
    totalProductsProcessed st = len (List.concat bs) /\
    totalSizeProcessed st
    = records_bytes (List.concat bs) + totalProductsProcessed st + totalBatchesSent st /\
    totalBatchesSent st <= totalProductsProcessed st.
Proof.
  cbv zeta. destruct (session_Inv maxSizeMB externalService cs initial []
                        (Inv_initial maxSizeMB)) as (bs & H).
  exists bs. split; [apply H|].
  assert (Hne : Forall (fun b : list json => b <> []) bs).
  { eapply Forall_impl; [|exact (inv_batches _ _ _ H)]. now intros b [Hb _]. }
  destruct (sent_bytes_records bs Hne) as [Hbytes Hlen].
  assert (Hl : len (map payload bs) = len bs) by (unfold len; now rewrite length_map).
  rewrite (inv_bytes _ _ _ H), (inv_sent _ _ _ H), (inv_products _ _ _ H),
    (inv_calls _ _ _ H), Hbytes, Hl.
  split; [apply sum_len_concat|]. split; lia.
Qed.

(** X5.  [printSummary] divides by a count only when the count is
    positive: the three averages are over [totalBatchesSent] batches and
    appear only when it is positive, the line of the full batches only when
    [fullBatchCount] is positive.  In every state a batcher can be in with a
    batch sent, the summary has the line of the full batches or the line of
    the partial ones, and what the two lines show adds up to the totals. *)
Theorem summary_never_divides_by_zero (cs : list Call) (st0 : State) :
  let st := session cs initial in
  (forall x n : Z,
     In (LogAverageBatchSize x n) (summary_lines st0) \/
     In (LogAverageProducts x n) (summary_lines st0) \/
     In (LogOverallUtilization x n) (summary_lines st0) ->
     0 < n /\ n = totalBatchesSent st0) /\
  (forall count bytes : Z,
     In (LogFullBatches count bytes) (summary_lines st0) <->
     0 < totalBatchesSent st0 /\ 0 < count /\
     count = fullBatchCount st0 /\ bytes = totalFullBatchesSize st0) /\
  (0 < totalBatchesSent st ->
   (In (LogFullBatches (fullBatchCount st) (totalFullBatchesSize st)) (summary_lines st) \/
    In (LogPartialBatches (totalBatchesSent st - fullBatchCount st)
          (totalSizeProcessed st - totalFullBatchesSize st)) (summary_lines st)) /\
   0 <= fullBatchCount st /\ 0 <= totalBatchesSent st - fullBatchCount st /\
   0 <= totalFullBatchesSize st /\ 0 <= totalSizeProcessed st - totalFullBatchesSize st).
Proof.
  cbv zeta. split; [|split].
  - intros x n. unfold summary_lines.
    destruct (totalBatchesSent st0 >? 0) eqn:E1;
      destruct (fullBatchCount st0 >? 0);
      destruct (totalBatchesSent st0 - fullBatchCount st0 >? 0);
      cbn [app In]; rewrite Z.gtb_ltb, ?Z.ltb_lt in E1;
      intros [Hin|[Hin|Hin]];
      repeat (destruct Hin as [Hin|Hin]; try discriminate);
      try contradiction; injection Hin as <- <-; auto.
  - intros count bytes. unfold summary_lines.
    destruct (totalBatchesSent st0 >? 0) eqn:E1;
      destruct (fullBatchCount st0 >? 0) eqn:E2;
      destruct (totalBatchesSent st0 - fullBatchCount st0 >? 0) eqn:E3;
      cbn [app In]; rewrite ?Z.gtb_ltb in *;
      rewrite ?Z.ltb_lt, ?Z.ltb_ge in *;
      (split; [intros Hin; repeat (destruct Hin as [Hin|Hin]; try discriminate);
               try contradiction; try (injection Hin as <- <-; repeat split; lia)
              | intros (? & ? & -> & ->); try lia; auto 20]).
  - intros Hsent.
    destruct (session_Inv maxSizeMB externalService cs initial []
                (Inv_initial maxSizeMB)) as (bs & H).
    set (st := session cs initial) in *.
    assert (Hfc : 0 <= fullBatchCount st <= totalBatchesSent st).
    { rewrite (inv_full_count _ _ _ H), (inv_sent _ _ _ H). apply len_filter_le. }
    assert (Hfb : 0 <= totalFullBatchesSize st <= totalSizeProcessed st).
    { rewrite (inv_full_bytes _ _ _ H), (inv_bytes _ _ _ H). apply sum_bytes_filter_le. }
    split; [|lia]. unfold summary_lines.
    apply Z.gtb_lt in Hsent. rewrite Hsent.
    destruct (fullBatchCount st >? 0) eqn:E2.
    + left. cbn [app In]. auto 20.
    + right. rewrite Z.gtb_ltb in E2. apply Z.ltb_ge in E2.
      apply Z.gtb_lt in Hsent.
      assert (E3 : (totalBatchesSent st - fullBatchCount st >? 0) = true)
        by (apply Z.gtb_lt; lia).
      rewrite E3. cbn [app In]. auto 20.
Qed.

(** *** A rule for properties of the batches handed over

    [Q rs st bs] relates the records given so far, the state and the
    batches handed to the service.  It goes on holding through a session as
    soon as it survives the five things a call can do: print, hand the batch
    over and get an exception, hand it over in [flush], hand it over and
    start a batch with the new record, append the new record. *)

Section Rule.

Variable P : json -> Prop.
Variable Q : list json -> State -> list (list json) -> Prop.
Variable flushes : Prop.

Hypothesis Q_console :
  forall rs lines st bs,
    sendings lines = [] -> Q rs st bs ->
    Q rs (set_console (console st ++ lines) st) bs.

Hypothesis Q_throw :
  forall rs rs' st bs e,
    Inv st bs -> Q rs st bs -> currentBatch st <> [] ->
    call externalService (calls st) (payload (currentBatch st)) = Some e ->
    Q rs' (counted st) (bs ++ [currentBatch st]).

Hypothesis Q_flush :
  flushes ->
  forall rs st bs,
    Inv st bs -> Q rs st bs -> currentBatch st <> [] ->
    call externalService (calls st) (payload (currentBatch st)) = None ->
    Q rs (set_currentBatchSize 0 (set_currentBatch [] (counted st)))
      (bs ++ [currentBatch st]).

Hypothesis Q_overflow :
  forall rs p st bs,
    P p -> Inv st bs -> Q rs st bs -> currentBatch st <> [] ->
    gt (currentBatchSize st + (record_bytes p + 1)) maxSizeBytes = true ->
    call externalService (calls st) (payload (currentBatch st)) = None ->
    Q (rs ++ [p])
      (set_currentBatchSize (calculateBatchSize [p])
         (set_currentBatch [p]
            (set_currentBatchSize 0 (set_currentBatch [] (counted st)))))
      (bs ++ [currentBatch st]).

Hypothesis Q_append :
  forall rs p st bs,
    P p -> Inv st bs -> Q rs st bs ->
    gt (currentBatchSize st
        + (record_bytes p + if len (currentBatch st) >? 0 then 1 else 0))
       maxSizeBytes && (len (currentBatch st) >? 0) = false ->
    Q (rs ++ [p])
      (set_currentBatchSize
         (if (len (currentBatch st ++ [p]) <=? 3)
             || (len (currentBatch st ++ [p]) mod 100 =? 0)
          then calculateBatchSize (currentBatch st ++ [p])
          else currentBatchSize st
               + (record_bytes p + if len (currentBatch st) >? 0 then 1 else 0))
         (set_currentBatch (currentBatch st ++ [p]) st))
      bs.

Lemma rule_addProduct (rs : list json) (p : json) (st : State) (bs : list (list json)) :
  P p -> Inv st bs -> Q rs st bs ->
  exists bs',
    Inv (snd (addProduct p st)) bs' /\
    match fst (addProduct p st) with
    | Normal _ => Q (rs ++ [p]) (snd (addProduct p st)) bs'
    | Throw _ => forall rs', Q rs' (snd (addProduct p st)) bs'
    end.
Proof.
  intros Hp H HQ. rewrite addProduct_eq. cbv zeta.
  destruct (gt _ maxSizeBytes && _) eqn:E.
  - apply andb_true_iff in E as [Egt Epos].
    rewrite Epos in Egt. apply len_pos in Epos.
    rewrite sendBatch_nonempty by assumption.
    exists (bs ++ [currentBatch st]).
    pose proof (Inv_counted maxSizeMB st bs Epos H) as Hc.
    destruct (call externalService _ _) as [e|] eqn:Hcall; cbn [fst snd].
    + split; [exact Hc|]. intros rs'. now apply (Q_throw rs rs' st bs e).
    + split; [now apply Inv_single, Inv_reset | now apply Q_overflow].
  - exists bs. cbn [fst snd]. split; [now apply Inv_append | now apply Q_append].
Qed.

Lemma rule_loop (total : Z) (ps : list json) :
  forall (n : Z) (rs : list json) (st : State) (bs : list (list json)),
    Forall P ps -> Inv st bs -> Q rs st bs ->
    exists bs',
      Inv (snd (addProducts_loop total ps n st)) bs' /\
      match fst (addProducts_loop total ps n st) with
      | Normal _ => Q (rs ++ ps) (snd (addProducts_loop total ps n st)) bs'
      | Throw _ => forall rs', Q rs' (snd (addProducts_loop total ps n st)) bs'
      end.
Proof.
  induction ps as [|p ps IH]; intros n rs st bs HP H HQ.
  - exists bs. cbn [Batcher.addProducts_loop ret fst snd]. rewrite app_nil_r. auto.
  - inversion HP as [|? ? Hp HP']; subst. rewrite loop_cons.
    destruct (rule_addProduct rs p st bs Hp H HQ) as (bs1 & H1 & HQ1).
    destruct (addProduct p st) as [[[]|e] st1]; cbn [fst snd] in *.
    + change (p :: ps) with ([p] ++ ps). rewrite app_assoc.
      apply (IH (n + 1) (rs ++ [p]) _ bs1 HP').
      * destruct (_ =? 0); [now apply Inv_console | exact H1].
      * destruct (_ =? 0); [now apply Q_console | exact HQ1].
    + exists bs1. split; [exact H1 | exact HQ1].
Qed.

Lemma sendings_summary (st : State) : sendings (summary_lines st) = [].
Proof.
  unfold summary_lines.
  destruct (totalBatchesSent st >? 0); [|reflexivity].
  destruct (fullBatchCount st >? 0);
    destruct (totalBatchesSent st - fullBatchCount st >? 0); reflexivity.
Qed.

Lemma rule_invoke (rs : list json) (c : Call) (st : State) (bs : list (list json)) :
  (c = Flush -> flushes) -> Forall P (records [c]) -> Inv st bs -> Q rs st bs ->
  exists bs',
    Inv (snd (invoke c st)) bs' /\ Q (rs ++ records [c]) (snd (invoke c st)) bs'.
Proof.
  intros Hf HP H HQ. destruct c as [p|ps|]; cbn [Batcher.invoke records] in *.
  - inversion HP as [|? ? Hp _]; subst.
    destruct (rule_addProduct rs p st bs Hp H HQ) as (bs' & H' & HQ').
    exists bs'. split; [exact H'|].
    destruct (fst (addProduct p st)); [exact HQ' | apply HQ'].
  - rewrite app_nil_r in *.
    unfold Batcher.addProducts, bind, console_log, modify.
    destruct (rule_loop (len ps) ps 0 rs
                (set_console (console st ++ [LogProcessing (len ps)]) st) bs HP
                (Inv_console maxSizeMB _ _ _ H)
                (Q_console rs [LogProcessing (len ps)] st bs eq_refl HQ))
      as (bs' & H' & HQ').
    exists bs'.
    destruct (addProducts_loop _ _ _ _) as [[[]|e] st']; cbn [fst snd] in *.
    + split; [now apply Inv_console | now apply Q_console].
    + split; [exact H' | apply HQ'].
  - rewrite app_nil_r. rewrite flush_eq.
    destruct (currentBatch st) as [|x b] eqn:E.
    + rewrite sendBatch_empty by assumption. exists bs. cbn [snd].
      split; [now apply Inv_console|].
      apply Q_console; [apply sendings_summary | exact HQ].
    + assert (Hb : currentBatch st <> []) by congruence.
      rewrite sendBatch_nonempty by assumption.
      exists (bs ++ [currentBatch st]).
      pose proof (Inv_counted maxSizeMB st bs Hb H) as Hc.
      destruct (call externalService _ _) as [e|] eqn:Hcall; cbn [snd].
      * split; [exact Hc | now apply (Q_throw rs rs st bs e)].
      * split; [now apply Inv_console, Inv_reset|].
        apply Q_console; [apply sendings_summary|]. apply Q_flush; auto.
Qed.

Lemma rule_session (cs : list Call) :
  forall (rs : list json) (st : State) (bs : list (list json)),
    (In Flush cs -> flushes) -> Forall P (records cs) -> Inv st bs -> Q rs st bs ->
    exists bs',
      Inv (session cs st) bs' /\ Q (rs ++ records cs) (session cs st) bs'.
Proof.
  induction cs as [|c cs IH]; intros rs st bs Hf HP H HQ.
  - exists bs. cbn [Batcher.session records]. rewrite app_nil_r. auto.
  - change (c :: cs) with ([c] ++ cs) in HP |- *.
    rewrite records_app in HP |- *. apply Forall_app in HP as [HPc HPcs].
    destruct (rule_invoke rs c st bs) as (bs1 & H1 & HQ1); try assumption.
    { intros ->. apply Hf. now left. }
    cbn [app Batcher.session]. rewrite app_assoc.
    apply (IH _ _ bs1); try assumption.
    intros Hin. apply Hf. now right.
Qed.

End Rule.

(** *** Records that fit *)

(** X6.  If every record given to the batcher fits the limit when it is
    alone in a batch (its serialized size plus the two brackets), then every
    payload the service receives is within the limit, whatever the calls and
    whatever the service does. *)
Theorem fitting_records_stay_within_limit (cs : list Call) :
  is_nan maxSizeBytes = false ->
  Forall fits_alone (records cs) ->
  Forall (fun p => le (Buffer_byteLength p) maxSizeBytes = true)
    (calls (session cs initial)).
Proof.
  intros Hnan Hfit.
  destruct (rule_session fits_alone
              (fun _ st bs => Forall (Forall fits_alone) bs /\
                              Forall fits_alone (currentBatch st)) True)
    with (cs := cs) (rs := @nil json) (st := initial) (bs := @nil (list json))
    as (bs & H & Hall & _).
  - intros _ lines st bs _ HQ. exact HQ.
  - intros _ _ st bs e _ [Hbs Hcur] _ _. split; [|exact Hcur].
    apply Forall_app. split; [exact Hbs | repeat constructor; exact Hcur].
  - intros _ _ st bs _ [Hbs Hcur] _ _. split; [|constructor].
    apply Forall_app. split; [exact Hbs | repeat constructor; exact Hcur].
  - intros _ p st bs Hp _ [Hbs Hcur] _ _ _. split; [|repeat constructor; exact Hp].
    apply Forall_app. split; [exact Hbs | repeat constructor; exact Hcur].
  - intros _ p st bs Hp _ [Hbs Hcur] _. split; [exact Hbs|].
    cbn [currentBatch set_currentBatch set_currentBatchSize].
    apply Forall_app. split; [exact Hcur | repeat constructor; exact Hp].
  - trivial.
  - exact Hfit.
  - apply Inv_initial.
  - split; constructor.
  - rewrite (inv_calls _ _ _ H). apply Forall_map.
    pose proof (inv_batches _ _ _ H) as Hok.
    rewrite Forall_forall in *. intros b Hin.
    destruct (Hok b Hin) as [Hne Hcap]. specialize (Hall b Hin).
    destruct b as [|x [|y b]].
    + congruence.
    + inversion Hall as [|? ? Hx _]; subst. unfold Observers.fits_alone in Hx.
      fold (batch_bytes [x]). now rewrite batch_bytes_single.
    + rewrite le_negb_gt by assumption. fold (batch_bytes (x :: y :: b)).
      rewrite Hcap; [reflexivity | cbn [length]; lia].
Qed.

(** *** The console tells what was handed over *)

Lemma sendings_app (l l' : list LogLine) :
  sendings (l ++ l') = sendings l ++ sendings l'.
Proof.
  induction l as [|x l IH]; [reflexivity|].
  destruct x; cbn [app sendings]; rewrite IH; reflexivity.
Qed.

Lemma numbered_from_snoc (bs : list (list json)) (b : list json) :
  forall k : Z,
    numbered_from k (bs ++ [b])
    = numbered_from k bs ++ [(k + len bs, len b, batch_bytes b)].
Proof.
  induction bs as [|x bs IH]; intros k; cbn [app numbered_from].
  - unfold len at 3. cbn [length]. now rewrite Z.add_0_r.
  - rewrite IH.
    replace (k + len (x :: bs)) with (k + 1 + len bs)
      by (unfold len; cbn [length]; lia).
    reflexivity.
Qed.

Lemma Inv_sent_len (st : State) (bs : list (list json)) :
  Inv st bs -> totalBatchesSent st = len bs.
Proof.
  intros H. rewrite (inv_sent _ _ _ H), (inv_calls _ _ _ H).
  unfold len. now rewrite length_map.
Qed.

Lemma printed_numbered (bs : list (list json)) :
  forall k : Z,
    map (fun '(batchNo, products, batchSize) =>
           sending_text batchNo products batchSize) (numbered_from k bs)
    = announcements k bs.
Proof.
  induction bs as [|b bs IH]; intros k; [reflexivity|].
  cbn [numbered_from map announcements]. now rewrite IH.
Qed.

(** X7.  Every invocation of the service is announced on the console by
    one line of [sendBatch], in the same order, whatever the calls and
    whatever the service does.  The lines are numbered from 1 without a gap;
    the text of each is [Sending batch N... (K products, S MB)], where [K]
    is the number of records of the batch handed over and [S] is its exact
    byte size divided by 2^20 and written with four decimals.  The byte size
    itself is not printed: batches of 1037 and of 1045 bytes both show
    [0.0010MB]. *)
Theorem every_invocation_is_announced (cs : list Call) :
  let st := session cs initial in
  exists bs : list (list json),
    calls st = map payload bs /\
    sendings (console st) = numbered_from 1 bs /\
    printed_sendings (console st) = announcements 1 bs /\
    sending_text 1 7 1037 = lit "Sending batch 1... (7 products, 0.0010MB)" /\
    toFixed4_MB 1045 = toFixed4_MB 1037.
Proof.
  cbv zeta.
  assert (Hsent : forall st bs,
             Inv st bs -> sendings (console st) = numbered_from 1 bs ->
             sendings (console (counted st))
             = numbered_from 1 (bs ++ [currentBatch st])).
  { intros st bs H HQ. cbn [Batcher.counted console].
    rewrite sendings_app, numbered_from_snoc, HQ, (Inv_sent_len st bs H).
    cbn [sendings]. rewrite (Z.add_comm 1 (len bs)). reflexivity. }
  destruct (rule_session (fun _ => True)
              (fun _ st bs => sendings (console st) = numbered_from 1 bs) True)
    with (cs := cs) (rs := @nil json) (st := initial) (bs := @nil (list json))
    as (bs & H & HQ).
  - intros _ lines st bs Hl HQ. cbn [console set_console].
    now rewrite sendings_app, Hl, app_nil_r.
  - intros _ _ st bs e H HQ _ _. now apply Hsent.
  - intros _ _ st bs H HQ _ _. now apply Hsent.
  - intros _ p st bs _ H HQ _ _ _. now apply Hsent.
  - intros _ p st bs _ _ HQ _. exact HQ.
  - trivial.
  - apply Forall_forall. trivial.
  - apply Inv_initial.
  - reflexivity.
  - exists bs. split; [apply H|]. split; [exact HQ|].
    split; [unfold printed_sendings; rewrite HQ; apply printed_numbered|].
    split; vm_compute; reflexivity.
Qed.

(** *** Batches are filled as far as the limit allows *)

Lemma greedy_snoc (bs : list (list json)) (cur next : list json) :
  greedy (bs ++ [cur]) -> overflows cur next -> greedy ((bs ++ [cur]) ++ [next]).
Proof.
  intros H Hnext. induction bs as [|b bs IH].
  - cbn. auto.
  - cbn [app Observers.greedy] in *. destruct H as [Hb H]. split; [|now apply IH].
    destruct bs; exact Hb.
Qed.

Lemma greedy_grow_last (bs : list (list json)) (cur : list json) (p : json) :
  greedy (bs ++ [cur]) -> greedy (bs ++ [cur ++ [p]]).
Proof.
  induction bs as [|b bs IH]; [cbn; auto|].
  cbn [app Observers.greedy]. intros [Hb H]. split; [|now apply IH].
  destruct bs as [|b' bs]; [|exact Hb].
  cbn [app] in *. destruct cur; [contradiction | exact Hb].
Qed.

Lemma greedy_but_last (bs : list (list json)) (cur : list json) :
  greedy (bs ++ [cur]) -> greedy bs.
Proof.
  induction bs as [|b bs IH]; [cbn; auto|].
  cbn [app Observers.greedy]. intros [Hb H]. split; [|now apply IH].
  destruct bs as [|b' bs]; [exact I | exact Hb].
Qed.

Lemma greedy_empty_last (bs : list (list json)) : greedy (bs ++ [[]]) -> bs = [].
Proof.
  induction bs as [|b bs IH]; [reflexivity|].
  cbn [app Observers.greedy]. intros [Hb H]. specialize (IH H). subst bs.
  cbn in Hb. contradiction.
Qed.

(** What a session without [flush] over a service that does not throw
    leaves: the batches handed over and the current batch are the records
    given, cut greedily. *)
Lemma session_greedy (cs : list Call) :
  (forall earlier p, call externalService earlier p = None) ->
  ~ In Flush cs ->
  exists bs : list (list json),
    Inv (session cs initial) bs /\
    List.concat bs ++ currentBatch (session cs initial) = records cs /\
    greedy (bs ++ [currentBatch (session cs initial)]).
Proof.
  intros Hsvc Hnoflush.
  destruct (rule_session (fun _ => True)
              (fun rs st bs => List.concat bs ++ currentBatch st = rs /\
                               greedy (bs ++ [currentBatch st])) False)
    with (cs := cs) (rs := @nil json) (st := initial) (bs := @nil (list json))
    as (bs & H & HQ).
  - intros rs lines st bs _ HQ. exact HQ.
  - intros rs rs' st bs e _ _ _ Hcall. rewrite Hsvc in Hcall. discriminate.
  - intros [].
  - intros rs p st bs _ H [Hcat Hg] Hb Hgt _.
    cbn [currentBatch set_currentBatch set_currentBatchSize].
    split.
    + rewrite concat_app. cbn [List.concat]. now rewrite app_nil_r, Hcat.
    + apply greedy_snoc; [exact Hg|]. cbn [Observers.overflows].
      rewrite batch_bytes_snoc by assumption.
      pose proof (inv_size _ _ _ H) as Hsz. unfold size_tracked in Hsz.
      now rewrite <- (exact_size_nonempty _ Hb), <- Hsz.
  - intros rs p st bs _ _ [Hcat Hg] _.
    cbn [currentBatch set_currentBatch set_currentBatchSize].
    split; [now rewrite app_assoc, Hcat | now apply greedy_grow_last].
  - exact Hnoflush.
  - apply Forall_forall. trivial.
  - apply Inv_initial.
  - split; [reflexivity | cbn; auto].
  - exists bs. split; [exact H|]. exact HQ.
Qed.

Lemma flushed_greedy (cs : list Call) :
  (forall earlier p, call externalService earlier p = None) ->
  ~ In Flush cs ->
  exists bs : list (list json),
    calls (snd (flush (session cs initial))) = map payload bs /\
    List.concat bs = records cs /\
    greedy bs /\
    Forall (fun b => b <> []) bs.
Proof.
  intros Hsvc Hnoflush.
  destruct (session_greedy cs Hsvc Hnoflush) as (bs & H & Hcat & Hg).
  assert (Hne : Forall (fun b : list json => b <> []) bs).
  { eapply Forall_impl; [|exact (inv_batches _ _ _ H)]. now intros b [Hb _]. }
  rewrite flush_eq. destruct (currentBatch (session cs initial)) as [|x b] eqn:E.
  - rewrite sendBatch_empty by assumption. exists bs. cbn [snd calls set_console].
    split; [apply H|]. split; [now rewrite app_nil_r in Hcat|].
    split; [now apply greedy_but_last in Hg | exact Hne].
  - rewrite sendBatch_nonempty, Hsvc by congruence.
    exists (bs ++ [x :: b]).
    cbn [snd calls set_console set_currentBatch set_currentBatchSize Batcher.counted].
    rewrite E, map_app, (inv_calls _ _ _ H), concat_app. cbn [map List.concat].
    rewrite app_nil_r. repeat split; try assumption.
    apply Forall_app. split; [exact Hne | repeat constructor; discriminate].
Qed.

(** X8.  Over a service that does not throw, records given without an
    intermediate [flush] and then flushed reach the service cut greedily:
    the batches handed over are the records in their order, none is empty,
    and every batch but the last was closed because the record that opens
    the next batch would have taken it over the limit. *)
Theorem batches_are_filled_greedily (cs : list Call) :
  (forall earlier p, call externalService earlier p = None) ->
  ~ In Flush cs ->
  exists bs : list (list json),
    calls (snd (flush (session cs initial))) = map payload bs /\
    List.concat bs = records cs /\
    greedy bs /\
    Forall (fun b => b <> []) bs.
Proof.
  intros Hsvc Hnoflush.
  destruct (flushed_greedy cs Hsvc Hnoflush) as (bs & Hcalls & Hcat & Hg & Hne).
  exists bs. auto.
Qed.

(** *** No in-order batching needs fewer invocations *)

Lemma records_bytes_nonneg (l : list json) : 0 <= records_bytes l.
Proof.
  unfold records_bytes. induction l as [|x l IH]; cbn [fold_right]; [lia|].
  pose proof (record_bytes_pos x). lia.
Qed.

Lemma batch_bytes_infix (pre m post : list json) :
  m <> [] -> batch_bytes m <= batch_bytes (pre ++ m ++ post).
Proof.
  intros Hm.
  assert (Hall : pre ++ m ++ post <> [])
    by (destruct pre; [destruct m; [congruence | discriminate] | discriminate]).
  rewrite !batch_bytes_records, !records_bytes_app by assumption.
  pose proof (records_bytes_nonneg pre). pose proof (records_bytes_nonneg post).
  unfold len. rewrite !length_app. lia.
Qed.

(** Greedy cutting stays ahead of any other cutting into batches that obey
    the limit. *)
Lemma greedy_minimal (G : list (list json)) :
  greedy G -> Forall (fun b => b <> []) G ->
  forall (A : list (list json)) (pre : list json),
    Forall (Batcher.batch_ok maxSizeMB) A ->
    List.concat A = pre ++ List.concat G ->
    (length G <= length A)%nat.
Proof.
  induction G as [|g1 G IH]; intros Hg Hne A pre HA Hcat; [cbn; lia|].
  inversion Hne as [|? ? Hg1 Hne']; subst.
  cbn [Observers.greedy] in Hg. destruct Hg as [Hover Hg].
  destruct A as [|a1 A].
  - cbn [List.concat] in Hcat. symmetry in Hcat.
    apply app_eq_nil in Hcat as [_ Hcat]. apply app_eq_nil in Hcat as [Hcat _].
    congruence.
  - inversion HA as [|? ? [Ha1 Hcap] HA']; subst.
    cbn [length]. apply le_n_S.
    cbn [List.concat] in Hcat. rewrite app_assoc in Hcat.
    apply app_eq_app in Hcat as [l [[Heq Hrest]|[Heq Hrest]]].
    + destruct l as [|r l].
      * apply (IH Hg Hne' A []); [exact HA' | now rewrite Hrest].
      * exfalso. destruct G as [|g2 G]; [discriminate Hrest|].
        destruct g2 as [|r2 g2]; [contradiction|].
        cbn [Observers.overflows] in Hover.
        cbn [List.concat app] in Hrest. injection Hrest as <- _.
        assert (Hlen : (1 < length a1)%nat).
        { rewrite Heq, !length_app. cbn [length].
          destruct g1; [congruence | cbn [length]; lia]. }
        specialize (Hcap Hlen).
        assert (Hbig : gt (batch_bytes a1) maxSizeBytes = true).
        { apply (gt_mono (batch_bytes (g1 ++ [r2]))); [|exact Hover].
          rewrite Heq.
          replace ((pre ++ g1) ++ r2 :: l) with (pre ++ (g1 ++ [r2]) ++ l)
            by (rewrite <- !app_assoc; reflexivity).
          apply batch_bytes_infix, snoc_nonempty. }
        rewrite Hbig in Hcap. discriminate.
    + apply (IH Hg Hne' A l); [exact HA' | exact Hrest].
Qed.

(** X9.  Over a service that does not throw, records given without an
    intermediate [flush] and then flushed reach the service in the fewest
    invocations possible: whichever way the same records are cut, in order,
    into non-empty batches that are within the limit as soon as they hold
    more than one record, there are at least as many batches. *)
Theorem fewest_invocations (cs : list Call) (alt : list (list json)) :
  (forall earlier p, call externalService earlier p = None) ->
  ~ In Flush cs ->
  Forall batch_ok alt ->
  List.concat alt = records cs ->
  len (calls (snd (flush (session cs initial)))) <= len alt.
Proof.
  intros Hsvc Hnoflush Halt Hcat.
  destruct (flushed_greedy cs Hsvc Hnoflush) as (bs & -> & Hbs & Hg & Hne).
  unfold len. rewrite length_map. apply inj_le.
  apply (greedy_minimal bs Hg Hne alt []); [exact Halt|].
  now rewrite Hcat, Hbs.
Qed.

(** *** The console is written, never read *)

Lemma vars_console (c : list LogLine) (st : State) : vars (set_console c st) = vars st.
Proof. reflexivity. Qed.

Lemma vars_fields (st1 st2 : State) :
  vars st1 = vars st2 -> st2 = set_console (console st2) st1.
Proof.
  destruct st1, st2. unfold vars, set_console. cbn. intros [= -> -> -> -> -> -> -> ->].
  reflexivity.
Qed.

Lemma sendBatch_console (c : list LogLine) (st : State) :
  fst (sendBatch (set_console c st)) = fst (sendBatch st) /\
  vars (snd (sendBatch (set_console c st))) = vars (snd (sendBatch st)).
Proof.
  destruct (currentBatch st) as [|x b] eqn:E.
  - rewrite !sendBatch_empty by assumption. auto.
  - rewrite !sendBatch_nonempty by (cbn [currentBatch set_console]; congruence).
    cbn [calls currentBatch set_console].
    destruct (call externalService _ _); split; reflexivity.
Qed.

Lemma sendBatch_vars (st1 st2 : State) :
  vars st1 = vars st2 ->
  fst (sendBatch st1) = fst (sendBatch st2) /\
  vars (snd (sendBatch st1)) = vars (snd (sendBatch st2)).
Proof.
  intros H. rewrite (vars_fields st1 st2 H).
  destruct (sendBatch_console (console st2) st1) as [-> ->]. auto.
Qed.

Lemma addProduct_console (c : list LogLine) (p : json) (st : State) :
  fst (addProduct p (set_console c st)) = fst (addProduct p st) /\
  vars (snd (addProduct p (set_console c st))) = vars (snd (addProduct p st)).
Proof.
  rewrite !addProduct_eq. cbv zeta. cbn [currentBatch currentBatchSize set_console].
  destruct (gt _ maxSizeBytes && _).
  - destruct (sendBatch_console c st) as [Hf Hv].
    destruct (sendBatch (set_console c st)) as [[[]|e1] s1];
      destruct (sendBatch st) as [[[]|e2] s2]; cbn [fst snd] in *;
      try discriminate; split; try assumption; try reflexivity.
    destruct s1, s2. unfold vars, set_console in *. cbn in *.
    injection Hv as -> -> -> -> -> -> -> ->. reflexivity.
  - split; reflexivity.
Qed.

Lemma addProduct_vars (p : json) (st1 st2 : State) :
  vars st1 = vars st2 ->
  fst (addProduct p st1) = fst (addProduct p st2) /\
  vars (snd (addProduct p st1)) = vars (snd (addProduct p st2)).
Proof.
  intros H. rewrite (vars_fields st1 st2 H).
  destruct (addProduct_console (console st2) p st1) as [-> ->]. auto.
Qed.

Lemma loop_script_vars (total : Z) (ps : list json) :
  forall (n : Z) (st1 st2 : State),
    vars st1 = vars st2 ->
    fst (addProducts_loop total ps n st1) = fst (script (map AddProduct ps) st2) /\
    vars (snd (addProducts_loop total ps n st1))
    = vars (snd (script (map AddProduct ps) st2)).
Proof.
  induction ps as [|p ps IH]; intros n st1 st2 H; [now split|].
  rewrite loop_cons. cbn [map Batcher.script Batcher.invoke]. unfold bind.
  destruct (addProduct_vars p st1 st2 H) as [Hf Hv].
  destruct (addProduct p st1) as [[[]|e1] s1];
    destruct (addProduct p st2) as [[[]|e2] s2]; cbn [fst snd] in *;
    try discriminate.
  - apply IH. destruct (_ =? 0); [rewrite vars_console|]; exact Hv.
  - split; assumption.
Qed.

(** X10.  [addProducts] batches exactly as one [addProduct] per record
    would: it returns or throws the same, and leaves the same batch, the
    same statistics and the same invocations of the service; only the
    console differs. *)
Theorem addProducts_is_repeated_addProduct (ps : list json) (st : State) :
  fst (addProducts ps st) = fst (script (map AddProduct ps) st) /\
  vars (snd (addProducts ps st)) = vars (snd (script (map AddProduct ps) st)).
Proof.
  unfold Batcher.addProducts, bind, console_log, modify.
  destruct (loop_script_vars (len ps) ps 0
              (set_console (console st ++ [LogProcessing (len ps)]) st) st
              (vars_console _ st)) as [Hf Hv].
  destruct (addProducts_loop _ _ _ _) as [[[]|e] st']; cbn [fst snd] in *.
  - split; [exact Hf|]. rewrite vars_console. exact Hv.
  - split; assumption.
Qed.

(** X11.  The console is written and never read: two batchers that
    differ only in what has been printed so far answer every call alike,
    returning or throwing the same and ending with the same batch, the same
    statistics and the same invocations of the service. *)
Theorem console_is_never_read (cs : list Call) (st1 st2 : State) :
  vars st1 = vars st2 ->
  fst (script cs st1) = fst (script cs st2) /\
  vars (snd (script cs st1)) = vars (snd (script cs st2)).
Proof.
  assert (Hone : forall (c : Call) (s1 s2 : State),
             vars s1 = vars s2 ->
             fst (invoke c s1) = fst (invoke c s2) /\
             vars (snd (invoke c s1)) = vars (snd (invoke c s2))).
  { intros [p|ps|] s1 s2 H; cbn [Batcher.invoke].
    - now apply addProduct_vars.
    - unfold Batcher.addProducts, bind, console_log, modify.
      destruct (loop_script_vars (len ps) ps 0
                  (set_console (console s1 ++ [LogProcessing (len ps)]) s1) s2)
        as [Hf1 Hv1]; [rewrite vars_console; exact H|].
      destruct (loop_script_vars (len ps) ps 0
                  (set_console (console s2 ++ [LogProcessing (len ps)]) s2) s2)
        as [Hf2 Hv2]; [apply vars_console|].
      destruct (addProducts_loop _ _ _ (set_console _ s1)) as [[[]|e1] t1];
        destruct (addProducts_loop _ _ _ (set_console _ s2)) as [[[]|e2] t2];
        cbn [fst snd] in *; rewrite ?vars_console; split; congruence.
    - rewrite !flush_eq. destruct (sendBatch_vars s1 s2 H) as [Hf Hv].
      destruct (sendBatch s1) as [[[]|e1] t1];
        destruct (sendBatch s2) as [[[]|e2] t2]; cbn [fst snd] in *;
        try discriminate; rewrite ?vars_console; split; assumption || reflexivity. }
  revert st1 st2. induction cs as [|c cs IH]; intros st1 st2 H; [now split|].
  cbn [Batcher.script]. unfold bind.
  destruct (Hone c st1 st2 H) as [Hf Hv].
  destruct (invoke c st1) as [[[]|e1] t1];
    destruct (invoke c st2) as [[[]|e2] t2]; cbn [fst snd] in *;
    try discriminate; [now apply IH | split; assumption].
Qed.

(** *** The progress lines of [addProducts] *)

Lemma progress_app (l l' : list LogLine) :
  progress (l ++ l') = progress l ++ progress l'.
Proof.
  induction l as [|x l IH]; [reflexivity|].
  destruct x; cbn [app progress]; rewrite IH; reflexivity.
Qed.

Lemma addProduct_lines (p : json) (st : State) :
  exists extra : list LogLine,
    console (snd (addProduct p st)) = console st ++ extra /\
    progress extra = [] /\
    forallb loop_line extra = true.
Proof.
  rewrite addProduct_eq. cbv zeta. destruct (gt _ maxSizeBytes && _) eqn:E.
  - apply andb_true_iff in E as [_ E]. apply len_pos in E.
    rewrite sendBatch_nonempty by assumption.
    destruct (call externalService _ _); cbn [snd console set_currentBatch
      set_currentBatchSize Batcher.counted]; eexists; repeat split; reflexivity.
  - exists []. cbn [snd console set_currentBatch set_currentBatchSize].
    rewrite app_nil_r. repeat split.
Qed.

Lemma loop_progress (total : Z) (ps : list json) :
  forall (n : Z) (st : State),
    fst (addProducts_loop total ps n st) = Normal tt ->
    exists mid : list LogLine,
      console (snd (addProducts_loop total ps n st)) = console st ++ mid /\
      forallb loop_line mid = true /\
      (forall m t : Z,
         In (m, t) (progress mid) <->
         t = total /\ n < m <= n + len ps /\ m mod 5000 = 0).
Proof.
  induction ps as [|p ps IH]; intros n st Hok.
  - exists []. cbn [Batcher.addProducts_loop ret snd]. rewrite app_nil_r.
    split; [reflexivity|]. split; [reflexivity|].
    intros m t. unfold len. cbn. split; [contradiction | lia].
  - rewrite loop_cons in Hok |- *.
    destruct (addProduct_lines p st) as (extra & Hc & Hp & Hl).
    destruct (addProduct p st) as [[[]|e] st1]; [|discriminate Hok].
    cbn [snd] in Hc.
    assert (Hlen : len (p :: ps) = len ps + 1) by (unfold len; cbn [length]; lia).
    pose proof (len_nonneg ps) as Hpos.
    destruct ((n + 1) mod 5000 =? 0) eqn:E.
    + destruct (IH (n + 1) _ Hok) as (mid & Hc2 & Hl2 & Hiff).
      exists (extra ++ [LogProgress (n + 1) total] ++ mid).
      split; [|split].
      * rewrite Hc2. cbn [console set_console]. rewrite Hc, <- !app_assoc. reflexivity.
      * rewrite !forallb_app, Hl, Hl2. reflexivity.
      * intros m t. rewrite !progress_app, Hp. cbn [app progress In].
        rewrite Hiff, Hlen. apply Z.eqb_eq in E. split.
        -- intros [[= <- <-]|(-> & Hm & Hmod)]; repeat split; try assumption; lia.
        -- intros (-> & Hm & Hmod).
           destruct (Z.eq_dec m (n + 1)) as [->|Hne]; [now left|].
           right. repeat split; try assumption; lia.
    + destruct (IH (n + 1) _ Hok) as (mid & Hc2 & Hl2 & Hiff).
      exists (extra ++ mid). split; [|split].
      * rewrite Hc2, Hc, <- app_assoc. reflexivity.
      * rewrite forallb_app, Hl, Hl2. reflexivity.
      * intros m t. rewrite progress_app, Hp. cbn [app].
        rewrite Hiff, Hlen. apply Z.eqb_neq in E. split.
        -- intros (-> & Hm & Hmod). repeat split; try assumption; lia.
        -- intros (-> & Hm & Hmod).
           destruct (Z.eq_dec m (n + 1)) as [->|Hne]; [contradiction|].
           repeat split; try assumption; lia.
Qed.

(** When the loop throws, the state is the one [sendBatch] left on the
    batch the service refused, after the lines of the records before. *)
Lemma loop_throw_lines (total : Z) (ps : list json) (e : JSError) :
  forall (n : Z) (st : State),
    fst (addProducts_loop total ps n st) = Throw e ->
    exists (st0 : State) (mid : list LogLine),
      snd (addProducts_loop total ps n st) = counted st0 /\
      currentBatch st0 <> [] /\
      call externalService (calls st0) (payload (currentBatch st0)) = Some e /\
      console st0 = console st ++ mid /\
      forallb loop_line mid = true /\
      (forall m t : Z,
         In (m, t) (progress mid) ->
         t = total /\ n < m <= n + len ps /\ m mod 5000 = 0).
Proof.
  induction ps as [|q ps IH]; intros n st; [discriminate|].
  rewrite loop_cons. pose proof (addProduct_throw q st e) as H.
  destruct (addProduct_lines q st) as (extra & Hc & Hp & Hl).
  assert (Hlen : len (q :: ps) = len ps + 1) by (unfold len; cbn [length]; lia).
  pose proof (len_nonneg ps) as Hpos.
  destruct (addProduct q st) as [[[]|e0] st1]; cbn [fst snd] in *.
  - intros Hthrow. destruct ((n + 1) mod 5000 =? 0) eqn:E.
    + destruct (IH (n + 1) _ Hthrow)
        as (st0 & mid & Hs & Hb & Hcall & Hc2 & Hl2 & Hin).
      exists st0, (extra ++ [LogProgress (n + 1) total] ++ mid).
      split; [exact Hs|]. split; [exact Hb|]. split; [exact Hcall|].
      split; [|split].
      * rewrite Hc2. cbn [console set_console]. rewrite Hc, <- !app_assoc. reflexivity.
      * rewrite !forallb_app, Hl, Hl2. reflexivity.
      * intros m t. rewrite !progress_app, Hp. cbn [app progress In].
        apply Z.eqb_eq in E. rewrite Hlen.
        intros [[= <- <-]|Hm]; [repeat split; try assumption; lia|].
        destruct (Hin m t Hm) as (-> & Hm1 & Hm2). repeat split; try assumption; lia.
    + destruct (IH (n + 1) _ Hthrow)
        as (st0 & mid & Hs & Hb & Hcall & Hc2 & Hl2 & Hin).
      exists st0, (extra ++ mid).
      split; [exact Hs|]. split; [exact Hb|]. split; [exact Hcall|].
      split; [|split].
      * rewrite Hc2, Hc, <- app_assoc. reflexivity.
      * rewrite forallb_app, Hl, Hl2. reflexivity.
      * intros m t. rewrite progress_app, Hp. cbn [app]. rewrite Hlen.
        intros Hm. destruct (Hin m t Hm) as (-> & Hm1 & Hm2).
        repeat split; try assumption; lia.
  - intros Hthrow. destruct (H Hthrow) as (Hb & Hcall & ->).
    exists st, []. rewrite app_nil_r.
    split; [reflexivity|]. split; [exact Hb|]. split; [exact Hcall|].
    split; [reflexivity|]. split; [reflexivity|]. intros m t [].
Qed.

(** X12.  When [addProducts] returns, what it printed starts with the
    line announcing the number of records and ends with the line of
    completion; in between there are only lines of [sendBatch] and progress
    lines, and there is a progress line for a count [m] exactly when [m] is a
    multiple of 5000 between 1 and the number of records, each showing that
    number as the total.  When [addProducts] throws, what it printed starts
    with the same first line, goes on with lines of [sendBatch] and progress
    lines for such counts only, and ends with the line of [sendBatch] for
    the batch on which the service threw, which is still the current batch
    and is the payload the service received last; no line of completion is
    printed. *)
Theorem addProducts_progress_lines (ps : list json) (st : State) :
  (fst (addProducts ps st) = Normal tt ->
   exists mid : list LogLine,
     console (snd (addProducts ps st))
     = console st ++ [LogProcessing (len ps)] ++ mid ++ [LogCompleted (len ps)] /\
     forallb loop_line mid = true /\
     (forall m t : Z,
        In (m, t) (progress mid) <->
        t = len ps /\ 0 < m <= len ps /\ m mod 5000 = 0)) /\
  (forall e : JSError,
     fst (addProducts ps st) = Throw e ->
     let st' := snd (addProducts ps st) in
     exists (mid : list LogLine) (earlier : list jsstring),
       console st'
       = console st ++ [LogProcessing (len ps)] ++ mid ++
         [LogSending (totalBatchesSent st') (len (currentBatch st'))
            (batch_bytes (currentBatch st'))] /\
       forallb loop_line mid = true /\
       (forall t : Z, ~ In (LogCompleted t) mid) /\
       (forall m t : Z,
          In (m, t) (progress mid) ->
          t = len ps /\ 0 < m <= len ps /\ m mod 5000 = 0) /\
       currentBatch st' <> [] /\
       calls st' = earlier ++ [payload (currentBatch st')] /\
       call externalService earlier (payload (currentBatch st')) = Some e).
Proof.
  unfold Batcher.addProducts, bind, console_log, modify.
  pose proof (loop_progress (len ps) ps 0
                (set_console (console st ++ [LogProcessing (len ps)]) st)) as Hn.
  pose proof (fun e => loop_throw_lines (len ps) ps e 0
                (set_console (console st ++ [LogProcessing (len ps)]) st)) as Ht.
  destruct (addProducts_loop _ _ _ _) as [[[]|e] st']; cbn [fst snd] in *.
  - split; [|discriminate]. intros _.
    destruct (Hn eq_refl) as (mid & Hc & Hl & Hiff). exists mid.
    cbn [console set_console] in *. rewrite Hc, <- !app_assoc.
    split; [reflexivity|]. split; [exact Hl|].
    intros m t. rewrite Hiff. rewrite Z.add_0_l. reflexivity.
  - split; [discriminate|]. intros e0 [= <-]. cbv zeta.
    destruct (Ht e eq_refl) as (st0 & mid & -> & Hb & Hcall & Hc & Hl & Hin).
    exists mid, (calls st0).
    cbn [Batcher.counted console currentBatch calls totalBatchesSent] in *.
    cbn [console set_console] in Hc. rewrite Hc, <- !app_assoc.
    split; [reflexivity|]. split; [exact Hl|]. split.
    { intros t Habs. rewrite forallb_forall in Hl. specialize (Hl _ Habs).
      discriminate Hl. }
    split.
    { intros m t Hm. destruct (Hin m t Hm) as (-> & Hm1 & Hm2).
      repeat split; try assumption; lia. }
    split; [exact Hb|]. split; [reflexivity | exact Hcall].
Qed.

(** *** Trying again after a failure *)

(** X13.  Nothing is rolled back when the service throws, so trying again
    sends the same batch again and counts it twice: if the service throws on
    a [flush] and returns on the next one, the second [flush] hands over the
    same payload a second time, and the batch is in the statistics twice.
    The same holds for an [addProduct] that had to send: repeated, it hands
    the former batch over again and then keeps the record. *)
Theorem retry_sends_again (st : State) (e : JSError) :
  currentBatch st <> [] ->
  call externalService (calls st) (payload (currentBatch st)) = Some e ->
  call externalService (calls st ++ [payload (currentBatch st)])
    (payload (currentBatch st)) = None ->
  let st1 := snd (flush st) in
  let st2 := snd (flush st1) in
  fst (flush st) = Throw e /\
  fst (flush st1) = Normal tt /\
  calls st2 = calls st ++ [payload (currentBatch st); payload (currentBatch st)] /\
  totalBatchesSent st2 = totalBatchesSent st + 2 /\
  totalProductsProcessed st2 = totalProductsProcessed st + 2 * len (currentBatch st) /\
  totalSizeProcessed st2 = totalSizeProcessed st + 2 * batch_bytes (currentBatch st) /\
  currentBatch st2 = [] /\
  (forall p : json,
     gt (currentBatchSize st + (record_bytes p + 1)) maxSizeBytes = true ->
     fst (addProduct p st) = Throw e /\
     fst (addProduct p (snd (addProduct p st))) = Normal tt /\
     calls (snd (addProduct p (snd (addProduct p st))))
     = calls st ++ [payload (currentBatch st); payload (currentBatch st)] /\
     currentBatch (snd (addProduct p (snd (addProduct p st)))) = [p]).
Proof.
  intros Hb He Hok. cbv zeta.
  assert (Hs : sendBatch st = (Throw e, counted st))
    by (rewrite sendBatch_nonempty, He by assumption; reflexivity).
  assert (Hs2 : sendBatch (counted st)
                = (Normal tt, set_currentBatchSize 0
                                (set_currentBatch [] (counted (counted st))))).
  { rewrite sendBatch_nonempty by exact Hb.
    cbn [calls currentBatch Batcher.counted]. now rewrite Hok. }
  rewrite (flush_eq maxSizeMB externalService st), Hs. cbn [fst snd].
  rewrite (flush_eq maxSizeMB externalService (counted st)), Hs2. cbn [fst snd].
  split; [reflexivity|]. split; [reflexivity|].
  cbn [calls currentBatch totalBatchesSent totalProductsProcessed
       totalSizeProcessed set_console set_currentBatch set_currentBatchSize
       Batcher.counted].
  rewrite <- !app_assoc. unfold batch_bytes.
  split; [reflexivity|]. split; [lia|]. split; [lia|]. split; [lia|].
  split; [reflexivity|].
  intros p Hp.
  assert (Ha : addProduct p st = (Throw e, counted st)).
  { rewrite addProduct_eq. cbv zeta. pose proof Hb as Hpos.
    apply len_pos in Hpos. rewrite Hpos, Hp. cbn [andb]. now rewrite Hs. }
  rewrite Ha. cbn [fst snd].
  rewrite (addProduct_overflow maxSizeMB externalService p (counted st));
    [| exact Hb | exact Hp | cbn [calls currentBatch Batcher.counted]; exact Hok].
  cbn [fst snd calls currentBatch set_currentBatch set_currentBatchSize
       Batcher.counted].
  rewrite <- !app_assoc. auto.
Qed.

(** *** Nothing is taken back *)

Lemma grows_refl (st : State) : grows st st.
Proof.
  unfold grows. split; [exists []; cbn; rewrite app_nil_r; repeat split; lia|].
  split; [exists []; now rewrite app_nil_r | lia].
Qed.

Lemma sum_bytes_app (l l' : list jsstring) :
  sum_bytes (l ++ l') = sum_bytes l + sum_bytes l'.
Proof.
  unfold sum_bytes. induction l as [|x l IH]; cbn [app fold_right]; lia.
Qed.

Lemma grows_trans (st1 st2 st3 : State) :
  grows st1 st2 -> grows st2 st3 -> grows st1 st3.
Proof.
  intros ((e1 & Hc1 & Hn1 & Hb1) & (l1 & Hl1) & H1)
         ((e2 & Hc2 & Hn2 & Hb2) & (l2 & Hl2) & H2).
  split; [|split; [|lia]].
  - exists (e1 ++ e2). rewrite Hc2, Hc1, Hn2, Hn1, Hb2, Hb1, app_assoc, sum_bytes_app.
    unfold len. rewrite length_app. repeat split; lia.
  - exists (l1 ++ l2). now rewrite Hl2, Hl1, app_assoc.
Qed.

Lemma grows_console (lines : list LogLine) (st : State) :
  grows st (set_console (console st ++ lines) st).
Proof.
  split; [exists []; cbn; rewrite app_nil_r; repeat split; lia|].
  split; [now exists lines | cbn; lia].
Qed.

Lemma grows_batch (b : list json) (z : Z) (st : State) :
  grows st (set_currentBatchSize z (set_currentBatch b st)).
Proof.
  split; [exists []; cbn; rewrite app_nil_r; repeat split; lia|].
  split; [exists []; cbn; now rewrite app_nil_r | cbn; lia].
Qed.

Lemma grows_counted (st : State) : grows st (counted st).
Proof.
  pose proof (byteLength_nonneg (payload (currentBatch st))) as Hp.
  pose proof (len_nonneg (currentBatch st)) as Hl.
  split; [|split].
  - exists [payload (currentBatch st)]. cbn [Batcher.counted calls totalBatchesSent
      totalSizeProcessed sum_bytes fold_right]. unfold len. cbn [length].
    repeat split; lia.
  - eexists. reflexivity.
  - cbn [Batcher.counted totalProductsProcessed fullBatchCount totalFullBatchesSize].
    destruct (is_full _); lia.
Qed.

Lemma sendBatch_grows (st : State) : grows st (snd (sendBatch st)).
Proof.
  destruct (currentBatch st) as [|x b] eqn:E.
  - rewrite sendBatch_empty by assumption. apply grows_refl.
  - rewrite sendBatch_nonempty by congruence.
    destruct (call externalService _ _); cbn [snd]; [apply grows_counted|].
    eapply grows_trans; [apply grows_counted | apply grows_batch].
Qed.

Lemma addProduct_grows (p : json) (st : State) : grows st (snd (addProduct p st)).
Proof.
  rewrite addProduct_eq. cbv zeta. destruct (gt _ maxSizeBytes && _).
  - pose proof (sendBatch_grows st) as H.
    destruct (sendBatch st) as [[[]|e] st']; cbn [snd] in *; [|exact H].
    eapply grows_trans; [exact H | apply grows_batch].
  - apply grows_batch.
Qed.

Lemma loop_grows (total : Z) (ps : list json) :
  forall (n : Z) (st : State), grows st (snd (addProducts_loop total ps n st)).
Proof.
  induction ps as [|p ps IH]; intros n st; [apply grows_refl|].
  rewrite loop_cons. pose proof (addProduct_grows p st) as H.
  destruct (addProduct p st) as [[[]|e] st1]; cbn [snd] in *; [|exact H].
  eapply grows_trans; [exact H|]. eapply grows_trans; [|apply IH].
  destruct (_ =? 0); [apply grows_console | apply grows_refl].
Qed.

(** X14.  No call takes anything back: through any sequence of calls,
    whatever the service does, the list of payloads the service received and
    the console are only extended, the number of batches counted goes up by
    exactly the number of new invocations and the bytes counted by exactly
    their sizes, and none of the counters goes down. *)
Theorem nothing_is_taken_back (cs : list Call) (st : State) :
  grows st (session cs st).
Proof.
  revert st. induction cs as [|c cs IH]; intros st; [apply grows_refl|].
  cbn [Batcher.session]. eapply grows_trans; [|apply IH].
  destruct c as [p|ps|]; cbn [Batcher.invoke].
  - apply addProduct_grows.
  - unfold Batcher.addProducts, bind, console_log, modify.
    pose proof (loop_grows (len ps) ps 0
                  (set_console (console st ++ [LogProcessing (len ps)]) st)) as H.
    destruct (addProducts_loop _ _ _ _) as [[[]|e] st']; cbn [snd] in *.
    + eapply grows_trans; [apply grows_console|].
      eapply grows_trans; [exact H | apply grows_console].
    + eapply grows_trans; [apply grows_console | exact H].
  - rewrite flush_eq. pose proof (sendBatch_grows st) as H.
    destruct (sendBatch st) as [[[]|e] st']; cbn [snd] in *; [|exact H].
    eapply grows_trans; [exact H | apply grows_console].
Qed.

End Closure.

(** *** The further properties at concrete batchers *)

Import Samples.

Lemma addProduct_outcome_witness :
  fst (addProduct five_MB reliable product_1 pending_two) = Normal tt /\
  fst (addProduct one_KB failing oversized_text pending_long) = Throw service_down /\
  currentBatch (snd (addProduct one_KB failing oversized_text pending_long))
  = currentBatch pending_long /\
  (currentBatch (snd (addProduct five_MB reliable product_1 pending_two))
   = currentBatch pending_two ++ [product_1] /\
   calls (snd (addProduct five_MB reliable product_1 pending_two)) = calls pending_two
   \/
   currentBatch pending_two <> [] /\
   currentBatch (snd (addProduct five_MB reliable product_1 pending_two)) = [product_1] /\
   calls (snd (addProduct five_MB reliable product_1 pending_two))
   = calls pending_two ++ [payload (currentBatch pending_two)]).
Proof.
  assert (H1 : fst (addProduct five_MB reliable product_1 pending_two) = Normal tt)
    by (vm_compute; reflexivity).
  assert (H2 : fst (addProduct one_KB failing oversized_text pending_long)
               = Throw service_down) by (vm_compute; reflexivity).
  pose proof (addProduct_outcome five_MB reliable product_1 pending_two) as Ha.
  pose proof (addProduct_outcome one_KB failing oversized_text pending_long) as Hb.
  cbv zeta in Ha, Hb. destruct Ha as [Ha _]. destruct Hb as [_ Hb].
  destruct (Hb service_down H2) as (Hcur & _).
  exact (conj H1 (conj H2 (conj Hcur (Ha H1)))).
Defined.

Lemma summary_never_divides_by_zero_witness :
  In (LogAverageBatchSize 123 1) (summary_lines flushed) /\
  0 < totalBatchesSent (session five_MB reliable (two_products ++ [Flush]) initial) /\
  0 < 1 /\
  0 <= totalBatchesSent (session five_MB reliable (two_products ++ [Flush]) initial)
       - fullBatchCount (session five_MB reliable (two_products ++ [Flush]) initial).
Proof.
  assert (H1 : In (LogAverageBatchSize 123 1) (summary_lines flushed))
    by (vm_compute; tauto).
  assert (H2 : 0 < totalBatchesSent
                     (session five_MB reliable (two_products ++ [Flush]) initial))
    by (vm_compute; reflexivity).
  pose proof (summary_never_divides_by_zero five_MB reliable
                (two_products ++ [Flush]) flushed) as H.
  cbv zeta in H. destruct H as (Havg & _ & Hsum).
  destruct (Havg 123 1 (or_introl H1)) as [Hpos _].
  destruct (Hsum H2) as (_ & _ & Hpart & _).
  exact (conj H1 (conj H2 (conj Hpos Hpart))).
Defined.

Lemma fitting_records_stay_within_limit_witness :
  is_nan (maxSizeBytes one_KB) = false /\
  Forall (Observers.fits_alone one_KB) (records [AddProducts twenty_products; Flush]) /\
  Forall (fun p => le (Buffer_byteLength p) (maxSizeBytes one_KB) = true)
    (calls (session one_KB reliable [AddProducts twenty_products; Flush] initial)).
Proof.
  assert (H1 : is_nan (maxSizeBytes one_KB) = false) by (vm_compute; reflexivity).
  assert (H2 : Forall (Observers.fits_alone one_KB)
                 (records [AddProducts twenty_products; Flush])).
  { apply Forall_forall. intros r Hin.
    cbn [records] in Hin. rewrite app_nil_r in Hin. unfold twenty_products in Hin.
    apply in_map_iff in Hin as (i & <- & Hi). apply in_seq in Hi.
    unfold Observers.fits_alone.
    do 20 (destruct i as [|i]; [vm_compute; reflexivity|]). lia. }
  exact (conj H1 (conj H2
           (fitting_records_stay_within_limit one_KB reliable
              [AddProducts twenty_products; Flush] H1 H2))).
Defined.

Lemma batches_are_filled_greedily_witness :
  (forall earlier p, call reliable earlier p = None) /\
  ~ In Flush [AddProducts twenty_products] /\
  exists bs : list (list json),
    calls (snd (flush one_KB reliable
                  (session one_KB reliable [AddProducts twenty_products] initial)))
    = map payload bs /\
    List.concat bs = records [AddProducts twenty_products] /\
    Observers.greedy one_KB bs /\
    Forall (fun b => b <> []) bs.
Proof.
  assert (H1 : forall earlier p, call reliable earlier p = None) by reflexivity.
  assert (H2 : ~ In Flush [AddProducts twenty_products])
    by (intros [H|[]]; discriminate H).
  exact (conj H1 (conj H2
           (batches_are_filled_greedily one_KB reliable
              [AddProducts twenty_products] H1 H2))).
Defined.

Lemma fewest_invocations_witness :
  (forall earlier p, call reliable earlier p = None) /\
  ~ In Flush two_products /\
  Forall (Batcher.batch_ok five_MB) [[product_1]; [product_2]] /\
  List.concat [[product_1]; [product_2]] = records two_products /\
  len (calls (snd (flush five_MB reliable (session five_MB reliable two_products initial))))
  <= len [[product_1]; [product_2]].
Proof.
  assert (H1 : forall earlier p, call reliable earlier p = None) by reflexivity.
  assert (H2 : ~ In Flush two_products) by (intros [H|[]]; discriminate H).
  assert (H3 : Forall (Batcher.batch_ok five_MB) [[product_1]; [product_2]]).
  { repeat constructor; try discriminate; cbn [length]; lia. }
  assert (H4 : List.concat [[product_1]; [product_2]] = records two_products)
    by reflexivity.
  exact (conj H1 (conj H2 (conj H3 (conj H4
           (fewest_invocations five_MB reliable two_products
              [[product_1]; [product_2]] H1 H2 H3 H4))))).
Defined.

Lemma console_is_never_read_witness :
  Observers.vars pending_two = Observers.vars (Observers.vars pending_two) /\
  fst (script five_MB reliable [Flush] pending_two)
  = fst (script five_MB reliable [Flush] (Observers.vars pending_two)) /\
  Observers.vars (snd (script five_MB reliable [Flush] pending_two))
  = Observers.vars (snd (script five_MB reliable [Flush] (Observers.vars pending_two))).
Proof.
  assert (H1 : Observers.vars pending_two = Observers.vars (Observers.vars pending_two))
    by reflexivity.
  exact (conj H1 (console_is_never_read five_MB reliable [Flush]
                    pending_two (Observers.vars pending_two) H1)).
Defined.

Lemma addProducts_progress_lines_witness :
  fst (addProducts five_MB reliable [product_1; product_2] initial) = Normal tt /\
  fst (addProducts one_KB failing [oversized_text] pending_long) = Throw service_down /\
  (exists mid : list LogLine,
     console (snd (addProducts five_MB reliable [product_1; product_2] initial))
     = console initial ++ [LogProcessing 2] ++ mid ++ [LogCompleted 2] /\
     forallb Observers.loop_line mid = true) /\
  (exists (mid : list LogLine) (earlier : list jsstring),
     console (snd (addProducts one_KB failing [oversized_text] pending_long))
     = console pending_long ++ [LogProcessing 1] ++ mid ++ [LogSending 1 1 1049] /\
     calls (snd (addProducts one_KB failing [oversized_text] pending_long))
     = earlier ++ [payload [long_text]] /\
     call failing earlier (payload [long_text]) = Some service_down).
Proof.
  assert (H1 : fst (addProducts five_MB reliable [product_1; product_2] initial)
               = Normal tt) by (vm_compute; reflexivity).
  assert (H2 : fst (addProducts one_KB failing [oversized_text] pending_long)
               = Throw service_down) by (vm_compute; reflexivity).
  assert (H3 : currentBatch (snd (addProducts one_KB failing [oversized_text]
                                    pending_long)) = [long_text])
    by (vm_compute; reflexivity).
  assert (H4 : totalBatchesSent (snd (addProducts one_KB failing [oversized_text]
                                        pending_long)) = 1)
    by (vm_compute; reflexivity).
  assert (H5 : batch_bytes [long_text] = 1049) by (vm_compute; reflexivity).
  destruct (addProducts_progress_lines five_MB reliable [product_1; product_2] initial)
    as [Hn _].
  destruct (addProducts_progress_lines one_KB failing [oversized_text] pending_long)
    as [_ Ht].
  destruct (Hn H1) as (mid & Hc & Hl & _).
  destruct (Ht service_down H2) as (mid' & earlier & Hc' & _ & _ & _ & _ & Hcalls & He).
  rewrite H3, H4, H5 in Hc'. rewrite H3 in Hcalls, He.
  split; [exact H1|]. split; [exact H2|]. split; [exists mid; now split|].
  exists mid', earlier. exact (conj Hc' (conj Hcalls He)).
Defined.

Lemma retry_sends_again_witness :
  currentBatch Observers.pending_flaky <> [] /\
  call Observers.flaky (calls Observers.pending_flaky)
    (payload (currentBatch Observers.pending_flaky)) = Some service_down /\
  call Observers.flaky
    (calls Observers.pending_flaky ++ [payload (currentBatch Observers.pending_flaky)])
    (payload (currentBatch Observers.pending_flaky)) = None /\
  fst (flush five_MB Observers.flaky Observers.pending_flaky) = Throw service_down /\
  totalBatchesSent
    (snd (flush five_MB Observers.flaky
            (snd (flush five_MB Observers.flaky Observers.pending_flaky))))
  = totalBatchesSent Observers.pending_flaky + 2.
Proof.
  assert (H1 : currentBatch Observers.pending_flaky <> [])
    by (vm_compute; discriminate).
  assert (H2 : call Observers.flaky (calls Observers.pending_flaky)
                 (payload (currentBatch Observers.pending_flaky)) = Some service_down)
    by (vm_compute; reflexivity).
  assert (H3 : call Observers.flaky
                 (calls Observers.pending_flaky
                  ++ [payload (currentBatch Observers.pending_flaky)])
                 (payload (currentBatch Observers.pending_flaky)) = None)
    by (vm_compute; reflexivity).
  pose proof (retry_sends_again five_MB Observers.flaky Observers.pending_flaky
                service_down H1 H2 H3) as H.
  cbv zeta in H. destruct H as (Hthrow & _ & _ & Hsent & _).
  exact (conj H1 (conj H2 (conj H3 (conj Hthrow Hsent)))).
Defined.

(** *** What the console shows *)

(** [toFixed(4)] of a size in megabytes: five megabytes, no byte, and the
    two sizes on either side of half of the last digit (52.4288 bytes). *)
Example toFixed4_MB_values :
  toFixed4_MB 5242880 = lit "5.0000" /\
  toFixed4_MB 0 = lit "0.0000" /\
  toFixed4_MB 52 = lit "0.0000" /\
  toFixed4_MB 53 = lit "0.0001" /\
  toFixed4_MB 123456789 = lit "117.7376".
Proof. vm_compute. repeat split. Qed.

(** Scenario B on the console: the three lines of [sendBatch], for batches
    of 1037, 1045 and 901 bytes. *)
Example scenario_B_console :
  printed_sendings
    (console (session one_KB reliable [AddProducts twenty_products; Flush] initial))
  = [lit "Sending batch 1... (7 products, 0.0010MB)";
     lit "Sending batch 2... (7 products, 0.0010MB)";
     lit "Sending batch 3... (6 products, 0.0009MB)"].
Proof. vm_compute. reflexivity. Qed.

End BatcherLaws.
